(** * Clustered light assignment: [BaseRenderer.updateClusters]

    A shallow embedding of [src/renderers/base.js] (the CPU side of the
    clustered shading pass) and of the cluster lookup of
    [src/shaders/deferred.frag.glsl.js] (the GPU side), followed by the
    properties of the cluster grid, of the per-light range projection and
    of the population loop.

    Numbers.  JavaScript numbers are modelled by [num]: the rationals
    extended with [NaN] and the two infinities.  Arithmetic is exact:
    rounding to binary64 (or binary32 on the GPU) is not modelled, and the
    sign of zero is not tracked (a zero divisor behaves as [+0]).  Values
    produced by [Math.floor] and [Math.ceil] are integer valued and live in
    [eint].  The cluster buffer only ever receives counts and light
    indices, so its cells are integers. *)

From Stdlib Require Import ZArith QArith Qround Lia Lqa Sorted.
From stdpp Require Import base option list list_numbers.

Local Open Scope Z_scope.

(** ** JavaScript numbers *)

Inductive num : Type :=
| NaN
| NInf
| PInf
| Fin (q : Q).

(** Sign of a rational, as a [comparison] with zero. *)
Definition qsgn (q : Q) : comparison := Qnum q ?= 0.

Definition sgn (a : num) : comparison :=
  match a with
  | NaN => Eq
  | NInf => Lt
  | PInf => Gt
  | Fin q => qsgn q
  end.

(** Product of signs; [Eq] (zero) is absorbing. *)
Definition sgn_mul (s t : comparison) : comparison :=
  match s, t with
  | Eq, _ | _, Eq => Eq
  | Lt, Lt | Gt, Gt => Gt
  | _, _ => Lt
  end.

(** The infinity of a given sign; the sign [Eq] stands for an
    indeterminate form and yields [NaN]. *)
Definition inf_of (s : comparison) : num :=
  match s with
  | Lt => NInf
  | Gt => PInf
  | Eq => NaN
  end.

Definition ofZ (z : Z) : num := Fin (inject_Z z).

Definition num_opp (a : num) : num :=
  match a with
  | NaN => NaN
  | NInf => PInf
  | PInf => NInf
  | Fin q => Fin (- q)
  end.

Definition num_add (a b : num) : num :=
  match a, b with
  | NaN, _ | _, NaN => NaN
  | PInf, NInf | NInf, PInf => NaN
  | PInf, _ | _, PInf => PInf
  | NInf, _ | _, NInf => NInf
  | Fin x, Fin y => Fin (x + y)
  end.

Definition num_sub (a b : num) : num := num_add a (num_opp b).

Definition num_mul (a b : num) : num :=
  match a, b with
  | NaN, _ | _, NaN => NaN
  | Fin x, Fin y => Fin (x * y)
  | _, _ => inf_of (sgn_mul (sgn a) (sgn b))
  end.

Definition num_div (a b : num) : num :=
  match a, b with
  | NaN, _ | _, NaN => NaN
  | Fin x, Fin y =>
      if Qeq_bool y 0 then inf_of (qsgn x) else Fin (x / y)
  | Fin _, _ => Fin 0
  | _, Fin y =>
      inf_of (sgn_mul (sgn a) (if Qeq_bool y 0 then Gt else qsgn y))
  | _, _ => NaN
  end.

(** JavaScript [a <= b]: false as soon as one side is [NaN]. *)
Definition num_leb (a b : num) : bool :=
  match a, b with
  | NaN, _ | _, NaN => false
  | NInf, _ => true
  | _, NInf => false
  | _, PInf => true
  | PInf, _ => false
  | Fin x, Fin y => if Qlt_le_dec y x then false else true
  end.

(** JavaScript truthiness of a number: [0] and [NaN] are falsy. *)
Definition truthy (a : num) : bool :=
  match a with
  | NaN => false
  | Fin q => negb (Qeq_bool q 0)
  | _ => true
  end.

(** [a || b] on numbers. *)
Definition num_or (a b : num) : num := if truthy a then a else b.

Declare Scope num_scope.
Delimit Scope num_scope with num.
Bind Scope num_scope with num.
Infix "+" := num_add : num_scope.
Infix "-" := num_sub : num_scope.
Infix "*" := num_mul : num_scope.
Infix "/" := num_div : num_scope.
Notation "- x" := (num_opp x) : num_scope.

(** ** Integer-valued numbers: results of [Math.floor] and [Math.ceil] *)

Inductive eint : Type :=
| ENaN
| ENInf
| EPInf
| EInt (z : Z).

Definition Math_floor (a : num) : eint :=
  match a with
  | NaN => ENaN
  | NInf => ENInf
  | PInf => EPInf
  | Fin q => EInt (Qfloor q)
  end.

Definition Math_ceil (a : num) : eint :=
  match a with
  | NaN => ENaN
  | NInf => ENInf
  | PInf => EPInf
  | Fin q => EInt (Qceiling q)
  end.

Definition Math_max (a b : eint) : eint :=
  match a, b with
  | ENaN, _ | _, ENaN => ENaN
  | EPInf, _ | _, EPInf => EPInf
  | ENInf, x | x, ENInf => x
  | EInt x, EInt y => EInt (Z.max x y)
  end.

Definition Math_min (a b : eint) : eint :=
  match a, b with
  | ENaN, _ | _, ENaN => ENaN
  | ENInf, _ | _, ENInf => ENInf
  | EPInf, x | x, EPInf => x
  | EInt x, EInt y => EInt (Z.min x y)
  end.

(** JavaScript [a < b] on integer-valued numbers. *)
Definition eint_ltb (a b : eint) : bool :=
  match a, b with
  | ENaN, _ | _, ENaN => false
  | _, ENInf => false
  | ENInf, _ => true
  | EPInf, _ => false
  | _, EPInf => true
  | EInt x, EInt y => x <? y
  end.

(** The transcendental part of [Math]: kept abstract, so that every
    theorem below holds whatever [Math.tan] and [Math.PI] evaluate to. *)
Class JSMath : Type := {
  Math_tan : num -> num;
  Math_PI : num
}.

(** ** Data model *)

(** [vec3]: the three components [a[0]], [a[1]], [a[2]]. *)
Record vec3 : Type := mkVec3 { v0 : num; v1 : num; v2 : num }.

(** [mat4]: the sixteen entries [m[0]] .. [m[15]], column major as in
    gl-matrix. *)
Record mat4 : Type := mkMat4 {
  m0 : num; m1 : num; m2 : num; m3 : num;
  m4 : num; m5 : num; m6 : num; m7 : num;
  m8 : num; m9 : num; m10 : num; m11 : num;
  m12 : num; m13 : num; m14 : num; m15 : num
}.

Record Camera : Type := mkCamera {
  near : num;
  far : num;
  fov : num;
  aspect : num
}.

(** A light of the scene; [updateClusters] reads only these two fields. *)
Record Light : Type := mkLight {
  position : vec3;
  radius : num
}.

Record Scene : Type := mkScene { lights : list Light }.

(** [vec3.fromValues]. *)
Definition fromValues (x y z : num) : vec3 := mkVec3 x y z.

(** [vec3.transformMat4(out, a, m)] of gl-matrix: the point [a] with an
    implicit fourth component 1, multiplied by [m] and divided by the
    resulting [w], where a falsy [w] is replaced by 1. *)
Definition transformMat4 (a : vec3) (m : mat4) : vec3 :=
  let x := v0 a in
  let y := v1 a in
  let z := v2 a in
  let w := (m3 m * x + m7 m * y + m11 m * z + m15 m)%num in
  let w := num_or w (Fin 1) in
  mkVec3 ((m0 m * x + m4 m * y + m8 m * z + m12 m) / w)%num
         ((m1 m * x + m5 m * y + m9 m * z + m13 m) / w)%num
         ((m2 m * x + m6 m * y + m10 m * z + m14 m) / w)%num.

(** ** The cluster texture *)

Definition MAX_LIGHTS_PER_CLUSTER : Z := 500.

(** One assignment [buffer[bufferIndex(cluster, pixel) + component] = _]
    as it appears in [updateClusters]. *)
Record Write : Type := mkWrite {
  w_cluster : Z;
  w_pixel : Z;
  w_component : Z
}.

(** The state of a [TextureBuffer].  [_buffer] is the typed array; the
    field [writes] is a ghost trace of the assignments made so far (most
    recent first), kept only to state where the code writes. *)
Record TextureBuffer : Type := mkTextureBuffer {
  _buffer : list Z;
  tb_elementCount : Z;
  _pixelsPerElement : Z;
  writes : list Write
}.

(** Construction either returns the object or raises. *)
Inductive outcome (A : Type) : Type :=
| Returned (a : A)
| Raised.
Arguments Returned {A} a.
Arguments Raised {A}.

(** Modelled from the spec: the [TextureBuffer] class
    ([src/renderers/textureBuffer.js]) is missing.  Its constructor
    receives the element count and the number of scalars per element, and
    allocates [elementCount] records of [ceil(elementSize / 4)] groups of
    four scalars ("a flat numeric array", "no error states"). *)
Definition TextureBuffer_new (elementCount elementSize : Z)
  : outcome TextureBuffer :=
  let pixelsPerElement := Qceiling (inject_Z elementSize / 4) in
  Returned {|
    _buffer := replicate (Z.to_nat (elementCount * pixelsPerElement * 4)) 0;
    tb_elementCount := elementCount;
    _pixelsPerElement := pixelsPerElement;
    writes := []
  |}.

(** Modelled from the spec: [bufferIndex] of the missing [TextureBuffer],
    "bufferIndex(c, g) = c * elementSize * 4 + g * 4 (four-scalar groups)"
    with [elementSize] counted in groups. *)
Definition bufferIndex (tb : TextureBuffer) (index component : Z) : Z :=
  index * _pixelsPerElement tb * 4 + component * 4.

(** Reading [buffer[idx]] of a typed array: [None] is [undefined]. *)
Definition bufGet (tb : TextureBuffer) (idx : Z) : option Z :=
  if decide (0 <= idx) then _buffer tb !! Z.to_nat idx else None.

(** Writing a typed array: an index outside the array is ignored. *)
Definition bufSet (buf : list Z) (idx v : Z) : list Z :=
  if decide (0 <= idx) then <[Z.to_nat idx := v]> buf else buf.

(** The address a [Write] refers to. *)
Definition address (tb : TextureBuffer) (w : Write) : Z :=
  bufferIndex tb (w_cluster w) (w_pixel w) + w_component w.

(** [buffer[bufferIndex(cluster, pixel) + component] = v]. *)
Definition store (tb : TextureBuffer) (cluster pixel component v : Z)
  : TextureBuffer :=
  let w := mkWrite cluster pixel component in
  {| _buffer := bufSet (_buffer tb) (address tb w) v;
     tb_elementCount := tb_elementCount tb;
     _pixelsPerElement := _pixelsPerElement tb;
     writes := w :: writes tb |}.

(** Modelled from the spec: [update()] of the missing [TextureBuffer]
    hands the buffer to the GPU and leaves it as it is. *)
Definition update (tb : TextureBuffer) : TextureBuffer := tb.

(** ** The renderer *)

Record BaseRenderer : Type := mkBaseRenderer {
  _clusterTexture : TextureBuffer;
  _xSlices : Z;
  _ySlices : Z;
  _zSlices : Z;
  _elementCount : Z;
  _elementSize : eint
}.

(** The constructor, given the constructor of the cluster texture. *)
Definition constructorWith
    (newTextureBuffer : Z -> Z -> outcome TextureBuffer)
    (xSlices ySlices zSlices : Z) : outcome BaseRenderer :=
  match newTextureBuffer (xSlices * ySlices * zSlices)
                         (MAX_LIGHTS_PER_CLUSTER + 1) with
  | Raised => Raised
  | Returned tb =>
      Returned {|
        _clusterTexture := tb;
        _xSlices := xSlices;
        _ySlices := ySlices;
        _zSlices := zSlices;
        _elementCount := xSlices * ySlices * zSlices;
        _elementSize :=
          Math_ceil ((ofZ MAX_LIGHTS_PER_CLUSTER + Fin 1) / Fin 4)%num
      |}
  end.

Definition constructor : Z -> Z -> Z -> outcome BaseRenderer :=
  constructorWith TextureBuffer_new.

Definition clampClusterIndex (val min max : eint) : eint :=
  Math_min (Math_max val min) max.

(** The 1D grid index of cluster [(x, y, z)], as written at both places
    of [updateClusters] (lines 32 and 117). *)
Definition clusterIndex1D (r : BaseRenderer) (x y z : Z) : Z :=
  x + y * _xSlices r + z * _xSlices r * _ySlices r.

(** ** Loops *)

(** [for (let x = lo; x < hi; ++x)] with integer bounds: the successive
    values of [x]. *)
Definition forZ {S : Type} (lo hi : Z) (body : Z -> S -> S) (s : S) : S :=
  foldl (fun s x => body x s) s (seqZ lo (hi - lo)).

(** The values taken by [x] in [for (let x = lo; x < hi; ++x)] when the
    bounds are arbitrary integer-valued numbers.  If the first test
    [lo < hi] fails (as it does when a bound is [NaN]) the body never
    runs.  [None] stands for a loop that never ends: [x] stuck at minus
    infinity, or an infinite upper bound. *)
Definition forRange (lo hi : eint) : option (list Z) :=
  if eint_ltb lo hi then
    match lo, hi with
    | EInt a, EInt b => Some (seqZ a (b - a))
    | _, _ => None
    end
  else Some [].

Fixpoint forEach {S : Type} (xs : list Z) (body : Z -> S -> option S) (s : S)
  : option S :=
  match xs with
  | [] => Some s
  | x :: xs' =>
      match body x s with
      | Some s' => forEach xs' body s'
      | None => None
      end
  end.

Definition forLoop {S : Type} (lo hi : eint) (body : Z -> S -> option S) (s : S)
  : option S :=
  match forRange lo hi with
  | Some xs => forEach xs body s
  | None => None
  end.

(** ** [updateClusters] *)

(** The cluster range of one light: half-open on each axis. *)
Record ClusterRange : Type := mkRange {
  xMin : eint; xMax : eint;
  yMin : eint; yMax : eint;
  zMin : eint; zMax : eint
}.

(** Lines 28-37: reset the light count of every cluster. *)
Definition resetCounts (r : BaseRenderer) (tb : TextureBuffer) : TextureBuffer :=
  forZ 0 (_zSlices r) (fun z tb =>
    forZ 0 (_ySlices r) (fun y tb =>
      forZ 0 (_xSlices r) (fun x tb =>
        let i := clusterIndex1D r x y z in
        store tb i 0 0 0) tb) tb) tb.

(** Steps 1 to 3 (lines 43-54): the two corners of the light's bounding
    box, in view space. *)
Definition viewBB (viewMatrix : mat4) (light : Light) : vec3 * vec3 :=
  let lightPos := position light in
  let lightRadius := radius light in
  let bbMin := fromValues (v0 lightPos - lightRadius)%num
                          (v1 lightPos - lightRadius)%num
                          (v2 lightPos - lightRadius)%num in
  let bbMax := fromValues (v0 lightPos + lightRadius)%num
                          (v1 lightPos + lightRadius)%num
                          (v2 lightPos + lightRadius)%num in
  (transformMat4 bbMin viewMatrix, transformMat4 bbMax viewMatrix).

(** Lines 122-131: the body of the population loop for the cluster
    [clusterIdx] and the light of index [i]. *)
Definition addLight (clusterIdx i : Z) (tb : TextureBuffer) : TextureBuffer :=
  let lightCountIdx := bufferIndex tb clusterIdx 0 in
  match bufGet tb lightCountIdx with
  | Some count =>
      if count <? MAX_LIGHTS_PER_CLUSTER then
        let tb := store tb clusterIdx 0 0 (count + 1) in
        match bufGet tb lightCountIdx with
        | Some lightIdx =>
            let pixelNum := lightIdx / 4 in
            let pixelComponent := Z.rem lightIdx 4 in
            store tb clusterIdx pixelNum pixelComponent i
        | None => tb
        end
      else tb
  | None => tb
  end.

Section WithMath.
Context `{JSMath}.

(** Step 4 and the first assignments of step 5 (lines 57-70, 84-85,
    99-100): the bounds before clamping. *)
Definition rawRange (r : BaseRenderer) (camera : Camera) (viewMatrix : mat4)
    (light : Light) : ClusterRange :=
  let '(viewBBMin, viewBBMax) := viewBB viewMatrix light in
  let zNear := (Fin (-1) * v2 viewBBMin)%num in
  let zFar := (Fin (-1) * v2 viewBBMax)%num in
  let zStep := ((far camera - near camera) / ofZ (_zSlices r))%num in
  let tanFov := Math_tan (Fin (1 # 2) * fov camera * (Math_PI / Fin 180))%num in
  let halfYLenNear := (zNear * tanFov)%num in
  let halfXLenNear := (halfYLenNear * aspect camera)%num in
  let halfYLenFar := (zFar * tanFov)%num in
  let halfXLenFar := (halfYLenFar * aspect camera)%num in
  {| xMin := Math_floor (v0 viewBBMin
               + (ofZ (_xSlices r) * halfXLenNear) / (Fin 2 * halfXLenNear))%num;
     xMax := Math_ceil (v0 viewBBMax
               + (ofZ (_xSlices r) * halfXLenFar) / (Fin 2 * halfXLenFar))%num;
     yMin := Math_floor (v1 viewBBMin
               + (ofZ (_ySlices r) * halfYLenNear) / (Fin 2 * halfYLenNear))%num;
     yMax := Math_ceil (v1 viewBBMax
               + (ofZ (_ySlices r) * halfYLenFar) / (Fin 2 * halfYLenFar))%num;
     zMin := Math_floor (zNear / zStep)%num;
     zMax := Math_ceil (zFar / zStep)%num |}.

(** Lines 76-82 (and 91-97, 102-108): clamp both bounds, then swap them
    if they are inverted. *)
Definition clampSwap (lo hi : eint) (slices : Z) : eint * eint :=
  let lo := clampClusterIndex lo (EInt 0) (EInt slices) in
  let hi := clampClusterIndex hi (EInt 0) (EInt slices) in
  let tmp := Math_max lo hi in
  let lo := Math_min lo hi in
  (lo, tmp).

(** Steps 1 to 5: the final cluster range of a light. *)
Definition lightRange (r : BaseRenderer) (camera : Camera) (viewMatrix : mat4)
    (light : Light) : ClusterRange :=
  let raw := rawRange r camera viewMatrix light in
  let '(xlo, xhi) := clampSwap (xMin raw) (xMax raw) (_xSlices r) in
  let '(ylo, yhi) := clampSwap (yMin raw) (yMax raw) (_ySlices r) in
  let '(zlo, zhi) := clampSwap (zMin raw) (zMax raw) (_zSlices r) in
  mkRange xlo xhi ylo yhi zlo zhi.

(** Step 6 (lines 113-134): register light [i] in every cluster of its
    range. *)
Definition populate (r : BaseRenderer) (rg : ClusterRange) (i : Z)
    (tb : TextureBuffer) : option TextureBuffer :=
  forLoop (zMin rg) (zMax rg) (fun z tb =>
    forLoop (yMin rg) (yMax rg) (fun y tb =>
      forLoop (xMin rg) (xMax rg) (fun x tb =>
        let clusterIdx := clusterIndex1D r x y z in
        Some (addLight clusterIdx i tb)) tb) tb) tb.

(** Lines 41-135: the loop over [scene.lights], [i] being the index of
    the head of [ls]. *)
Fixpoint lightsLoop (r : BaseRenderer) (camera : Camera) (viewMatrix : mat4)
    (i : Z) (ls : list Light) (tb : TextureBuffer) : option TextureBuffer :=
  match ls with
  | [] => Some tb
  | light :: ls' =>
      match populate r (lightRange r camera viewMatrix light) i tb with
      | Some tb' => lightsLoop r camera viewMatrix (i + 1) ls' tb'
      | None => None
      end
  end.

Definition set_clusterTexture (r : BaseRenderer) (tb : TextureBuffer)
  : BaseRenderer :=
  {| _clusterTexture := tb;
     _xSlices := _xSlices r;
     _ySlices := _ySlices r;
     _zSlices := _zSlices r;
     _elementCount := _elementCount r;
     _elementSize := _elementSize r |}.

(** [updateClusters(camera, viewMatrix, scene, wireframe)]: the renderer
    after the call, or [None] if the call never returns. *)
Definition updateClusters (r : BaseRenderer) (camera : Camera)
    (viewMatrix : mat4) (scene : Scene) (wireframe : bool)
  : option BaseRenderer :=
  let tb := resetCounts r (_clusterTexture r) in
  match lightsLoop r camera viewMatrix 0 (lights scene) tb with
  | Some tb' => Some (set_clusterTexture r (update tb'))
  | None => None
  end.

End WithMath.

(** ** The fragment shader's cluster lookup *)

(** GLSL [int(x)] on a float: the fractional part is dropped; the result
    is undefined ([None]) when [x] is not finite. *)
Definition glsl_int (a : num) : option Z :=
  match a with
  | Fin q => Some (Z.quot (Qnum q) (Zpos (Qden q)))
  | _ => None
  end.

(** [#define PI 3.1415926535897932384626433832795]. *)
Definition glsl_PI : num :=
  Fin (31415926535897932384626433832795 # 10000000000000000000000000000000).

(** The uniforms read by the cluster lookup. *)
Record Uniforms : Type := mkUniforms {
  u_viewMatrix : mat4;
  u_slices : vec3;
  u_fov : num;
  u_aspect : num;
  u_clipDist : num
}.

(** [(u_viewMatrix * vec4(pos, 1.0)).xyz] (line 98). *)
Definition viewPosition (u : Uniforms) (pos : vec3) : vec3 :=
  let m := u_viewMatrix u in
  mkVec3 (m0 m * v0 pos + m4 m * v1 pos + m8 m * v2 pos + m12 m * Fin 1)%num
         (m1 m * v0 pos + m5 m * v1 pos + m9 m * v2 pos + m13 m * Fin 1)%num
         (m2 m * v0 pos + m6 m * v1 pos + m10 m * v2 pos + m14 m * Fin 1)%num.

Section Shader.
Context `{JSMath}.

(** Lines 99-110 of the shader: the cluster index of the fragment whose
    view-space position is [viewPos].  The integer arithmetic of line 110
    is taken without overflow. *)
Definition fragClusterIndex (u : Uniforms) (viewPos : vec3) : option Z :=
  let tanFov := Math_tan (Fin (1 # 2) * u_fov u * (glsl_PI / Fin 180))%num in
  let halfYLen := (v2 viewPos * tanFov)%num in
  let halfXLen := (halfYLen * u_aspect u)%num in
  clusterX ← glsl_int (v0 viewPos
                + (v0 (u_slices u) * halfXLen) / (Fin 2 * halfXLen))%num;
  clusterY ← glsl_int (v1 viewPos
                + (v1 (u_slices u) * halfYLen) / (Fin 2 * halfYLen))%num;
  clusterZ ← glsl_int (v2 viewPos / (u_clipDist u / v2 (u_slices u)))%num;
  sx ← glsl_int (v0 (u_slices u));
  sy ← glsl_int (v1 (u_slices u));
  Some (clusterX + clusterY * sx + clusterZ * sx * sy).

End Shader.

(** ** A concrete [Math] to run the model

    [Math.tan] is replaced by the first terms of its power series and
    [Math.PI] by the fraction 355/113.  They serve to evaluate the model
    on sample frames only. *)
Definition tanSeries (a : num) : num :=
  match a with
  | Fin q =>
      let x := Qred q in
      Fin (Qred (x + x ^ 3 / 3 + (2 # 15) * x ^ 5 + (17 # 315) * x ^ 7))
  | _ => NaN
  end.

Definition seriesMath : JSMath :=
  {| Math_tan := tanSeries;
     Math_PI := Fin (355 # 113) |}.

(** The identity view matrix. *)
Definition identityView : mat4 :=
  mkMat4 (Fin 1) (Fin 0) (Fin 0) (Fin 0)
         (Fin 0) (Fin 1) (Fin 0) (Fin 0)
         (Fin 0) (Fin 0) (Fin 1) (Fin 0)
         (Fin 0) (Fin 0) (Fin 0) (Fin 1).

(** The camera of the spec's scenario: near 1, far 100, fov 60, aspect 1. *)
Definition sampleCamera : Camera :=
  mkCamera (Fin 1) (Fin 100) (Fin 60) (Fin 1).

(** ** Vocabulary of the properties *)

(** The values of the loop variable for bounds that are integers; no
    value for any other bound. *)
Definition axisCells (lo hi : eint) : list Z :=
  match lo, hi with
  | EInt a, EInt b => seqZ a (b - a)
  | _, _ => []
  end.

(** [x] lies in the half-open interval from [lo] to [hi]. *)
Definition between (lo hi : eint) (x : Z) : bool :=
  match lo, hi with
  | EInt a, EInt b => (a <=? x) && (x <? b)
  | _, _ => false
  end.

(** The cluster [(x, y, z)] belongs to the range [rg]. *)
Definition inRange (rg : ClusterRange) (x y z : Z) : bool :=
  between (xMin rg) (xMax rg) x
  && between (yMin rg) (yMax rg) y
  && between (zMin rg) (zMax rg) z.

(** The 1D indices visited by the three nested loops over a grid of
    coordinates, outermost [z], innermost [x]. *)
Definition cells (r : BaseRenderer) (zs ys xs : list Z) : list Z :=
  zs ≫= fun z => ys ≫= fun y => xs ≫= fun x => [clusterIndex1D r x y z].

(** The clusters visited by the reset loops, in order. *)
Definition gridCells (r : BaseRenderer) : list Z :=
  cells r (seqZ 0 (_zSlices r - 0)) (seqZ 0 (_ySlices r - 0))
          (seqZ 0 (_xSlices r - 0)).

(** The clusters visited by the population loops for the range [rg]. *)
Definition rangeCells (r : BaseRenderer) (rg : ClusterRange) : list Z :=
  cells r (axisCells (zMin rg) (zMax rg)) (axisCells (yMin rg) (yMax rg))
          (axisCells (xMin rg) (xMax rg)).

(** [(x, y, z)] is a cluster of the grid. *)
Definition inGrid (r : BaseRenderer) (x y z : Z) : Prop :=
  0 <= x < _xSlices r /\ 0 <= y < _ySlices r /\ 0 <= z < _zSlices r.

(** A bound pair as left by the clamp and the swap: two [NaN], or two
    ordered integers between 0 and the slice count (both equal to the
    slice count when it is negative). *)
Definition wfAxis (lo hi : eint) (slices : Z) : Prop :=
  (lo = ENaN /\ hi = ENaN)
  \/ exists a b, lo = EInt a /\ hi = EInt b /\ a <= b
       /\ (0 <= slices -> 0 <= a /\ b <= slices)
       /\ (slices < 0 -> a = slices /\ b = slices).

Definition wfRange (r : BaseRenderer) (rg : ClusterRange) : Prop :=
  wfAxis (xMin rg) (xMax rg) (_xSlices r)
  /\ wfAxis (yMin rg) (yMax rg) (_ySlices r)
  /\ wfAxis (zMin rg) (zMax rg) (_zSlices r).



(** The stored light count of cluster [c]. *)
Definition lightCount (tb : TextureBuffer) (c : Z) : option Z :=
  bufGet tb (bufferIndex tb c 0).

(** The [k]-th scalar of the record of cluster [c] ([k = 0] is the count,
    [k >= 1] the [k]-th light index), addressed as the code does. *)
Definition lightSlot (tb : TextureBuffer) (c k : Z) : option Z :=
  bufGet tb (bufferIndex tb c (k / 4) + Z.rem k 4).

(** The light indices stored in cluster [c]: slots 1 to [n]. *)
Definition storedLights (tb : TextureBuffer) (c n : Z) : list (option Z) :=
  (fun k => lightSlot tb c k) <$> seqZ 1 n.

(** The texture has the shape given by the constructor. *)
Definition textureInv (r : BaseRenderer) (tb : TextureBuffer) : Prop :=
  _pixelsPerElement tb = 126
  /\ Z.of_nat (length (_buffer tb))
     = _xSlices r * _ySlices r * _zSlices r * 126 * 4.

Definition rendererInv (r : BaseRenderer) : Prop :=
  textureInv r (_clusterTexture r)
  /\ _elementCount r = _xSlices r * _ySlices r * _zSlices r
  /\ _elementSize r = EInt 126.

(** A write that stays inside the cluster buffer. *)
Definition inBounds (r : BaseRenderer) (tb : TextureBuffer) (w : Write) : Prop :=
  0 <= w_cluster w < _xSlices r * _ySlices r * _zSlices r
  /\ 0 <= w_pixel w < 126
  /\ 0 <= w_component w < 4
  /\ 0 <= address tb w < Z.of_nat (length (_buffer tb)).

Section Vocabulary.
Context `{JSMath}.

(** The indices, in scene order and counted from [i], of the lights of
    [ls] whose cluster range contains [(x, y, z)]. *)
Fixpoint overlapping (r : BaseRenderer) (camera : Camera) (viewMatrix : mat4)
    (i : Z) (ls : list Light) (x y z : Z) : list Z :=
  match ls with
  | [] => []
  | light :: ls' =>
      let rest := overlapping r camera viewMatrix (i + 1) ls' x y z in
      if inRange (lightRange r camera viewMatrix light) x y z
      then i :: rest else rest
  end.

End Vocabulary.

(** The cluster records of the grid hold the lists [f c]: the count of
    cluster [c] is the length of [f c] capped at the capacity, and the
    slots after the count hold the first elements of [f c]. *)
Definition Rep (r : BaseRenderer) (tb : TextureBuffer) (f : Z -> list Z)
  : Prop :=
  forall c, c ∈ gridCells r ->
    lightCount tb c
      = Some (Z.min (Z.of_nat (length (f c))) MAX_LIGHTS_PER_CLUSTER)
    /\ forall k : nat, (k < length (f c))%nat ->
         Z.of_nat k < MAX_LIGHTS_PER_CLUSTER ->
         bufGet tb (bufferIndex tb c 0 + 1 + Z.of_nat k) = f c !! k.

(** The invariant of the population loop, started from the texture
    [tb0]: shape, contents, and the writes made since [tb0]. *)
Definition Inv (r : BaseRenderer) (tb0 tb : TextureBuffer) (f : Z -> list Z)
  : Prop :=
  textureInv r tb
  /\ Rep r tb f
  /\ exists ws, writes tb = ws ++ writes tb0 /\ Forall (inBounds r tb) ws.

Section Hits.
Context `{JSMath}.

(** The indices, counted from [i], of the lights of [ls] whose population
    loop visits the cluster of index [c]. *)
Fixpoint hits (r : BaseRenderer) (camera : Camera) (viewMatrix : mat4)
    (i : Z) (ls : list Light) (c : Z) : list Z :=
  match ls with
  | [] => []
  | light :: ls' =>
      let rest := hits r camera viewMatrix (i + 1) ls' c in
      if decide (c ∈ rangeCells r (lightRange r camera viewMatrix light))
      then i :: rest else rest
  end.

End Hits.

(** ** Sample frames *)

(** The renderer returned by [new BaseRenderer(4, 4, 4)]. *)
Definition sampleRenderer : BaseRenderer :=
  {| _clusterTexture :=
       {| _buffer := replicate (Z.to_nat (4 * 4 * 4 * 126 * 4)) 0;
          tb_elementCount := 64;
          _pixelsPerElement := 126;
          writes := [] |};
     _xSlices := 4;
     _ySlices := 4;
     _zSlices := 4;
     _elementCount := 64;
     _elementSize := EInt 126 |}.

Definition pointLight (x y z rad : Q) : Light :=
  mkLight (mkVec3 (Fin x) (Fin y) (Fin z)) (Fin rad).

(** The scene of the spec's scenario: one light on the camera's forward
    axis, at depth 10, of radius 5. *)
Definition sampleScene : Scene := mkScene [pointLight 0 0 (-10) 5].

(** One light more than the capacity, all at the same place. *)
Definition crowdedScene : Scene :=
  mkScene (replicate 501 (pointLight 0 0 (-10) 5)).

(** The trace accounts for every change: from [tb] to [tb'] the layout is
    kept, writes were only added, and a cell that no added write
    addresses holds what it held. *)
Definition Frame (tb tb' : TextureBuffer) : Prop :=
  _pixelsPerElement tb' = _pixelsPerElement tb
  /\ exists ws, writes tb' = ws ++ writes tb
       /\ forall a, (forall w, w ∈ ws -> address tb w <> a) ->
            bufGet tb' a = bufGet tb a.

(** ** The formulas of the specification *)

(** A finite number other than zero. *)
Definition isFinNZ (a : num) : bool :=
  match a with
  | Fin q => negb (Qeq_bool q 0)
  | _ => false
  end.

Section SpecFormulas.
Context `{JSMath}.




(** The view-space point [p] lies inside the camera frustum: its depth
    [-p.z] is between [near] and [far], and [p.x], [p.y] are within the
    half width and the half height of the frustum at that depth. *)
Definition insideFrustum (camera : Camera) (p : vec3) : bool :=
  let depth := (- v2 p)%num in
  let tanFov := Math_tan (Fin (1 # 2) * fov camera * (Math_PI / Fin 180))%num in
  let halfY := (depth * tanFov)%num in
  let halfX := (halfY * aspect camera)%num in
  num_leb (near camera) depth && num_leb depth (far camera)
  && num_leb (- halfX)%num (v0 p) && num_leb (v0 p) halfX
  && num_leb (- halfY)%num (v1 p) && num_leb (v1 p) halfY.

(** The cluster in which the CPU side registers a light of radius 0 whose
    view-space position is [viewPos] (the view matrix is the identity):
    the lower corner of its range. *)
Definition cpuClusterOfPoint (r : BaseRenderer) (camera : Camera)
    (viewPos : vec3) : option Z :=
  let rg := lightRange r camera
              (mkMat4 (Fin 1) (Fin 0) (Fin 0) (Fin 0)
                      (Fin 0) (Fin 1) (Fin 0) (Fin 0)
                      (Fin 0) (Fin 0) (Fin 1) (Fin 0)
                      (Fin 0) (Fin 0) (Fin 0) (Fin 1))
              (mkLight viewPos (Fin 0)) in
  match xMin rg, yMin rg, zMin rg with
  | EInt x, EInt y, EInt z => Some (clusterIndex1D r x y z)
  | _, _, _ => None
  end.

End SpecFormulas.

(** The uniforms of the shader for the renderer [r] and the camera
    [camera], the clip distance being [far - near]. *)
Definition uniformsOf (r : BaseRenderer) (camera : Camera) (viewMatrix : mat4)
  : Uniforms :=
  {| u_viewMatrix := viewMatrix;
     u_slices := mkVec3 (ofZ (_xSlices r)) (ofZ (_ySlices r)) (ofZ (_zSlices r));
     u_fov := fov camera;
     u_aspect := aspect camera;
     u_clipDist := (far camera - near camera)%num |}.





(** A light of radius 0 in front of the near plane of [sampleCamera]:
    outside its frustum. *)
Definition outsideLight : Light := pointLight (1 # 4) (1 # 4) (-1 # 2) 0.

(** A view-space point inside the frustum of [sampleCamera], in the
    second depth slice. *)
Definition deepPoint : vec3 := mkVec3 (Fin (1 # 2)) (Fin (1 # 2)) (Fin (-30)).

(** ** Two runs of [updateClusters] side by side *)

(** Two textures of the same layout hold the same value in every cell
    addressed by a write of [ws]. *)
Definition Agree (ws : list Write) (tb1 tb2 : TextureBuffer) : Prop :=
  _pixelsPerElement tb1 = _pixelsPerElement tb2
  /\ length (_buffer tb1) = length (_buffer tb2)
  /\ forall w, w ∈ ws -> bufGet tb1 (address tb1 w) = bufGet tb2 (address tb2 w).

(** Two runs, started from the traces [t1] and [t2], have made the same
    writes [ws] so far, agree on every cell written, and have already
    written the count slot of every cluster of the grid of [r]. *)
Definition Sim (r : BaseRenderer) (t1 t2 : list Write)
    (tb1 tb2 : TextureBuffer) : Prop :=
  exists ws, writes tb1 = ws ++ t1 /\ writes tb2 = ws ++ t2
    /\ Agree ws tb1 tb2
    /\ forall c, c ∈ gridCells r -> mkWrite c 0 0 ∈ ws.

(** The sample renderer after some earlier frame: every cell holds 7. *)
Definition dirtyRenderer : BaseRenderer :=
  {| _clusterTexture :=
       {| _buffer := replicate (Z.to_nat (4 * 4 * 4 * 126 * 4)) 7;
          tb_elementCount := 64;
          _pixelsPerElement := 126;
          writes := [] |};
     _xSlices := 4;
     _ySlices := 4;
     _zSlices := 4;
     _elementCount := 64;
     _elementSize := EInt 126 |}.

(** ** The rest of the fragment shader *)

(** JavaScript and GLSL [a < b] on numbers: false as soon as one side is
    [NaN]. *)
Definition num_ltb (a b : num) : bool :=
  match a, b with
  | NaN, _ | _, NaN => false
  | _, NInf => false
  | NInf, _ => true
  | PInf, _ => false
  | _, PInf => true
  | Fin x, Fin y => if Qlt_le_dec x y then true else false
  end.

Module Shader.

(** [vec2] and [vec4]; the components of a [vec4] are [texel[0]] ..
    [texel[3]], also known as [xyzw] and [rgba]. *)
Record vec2 : Type := mkVec2 { vx : num; vy : num }.
Record vec4 : Type := mkVec4 { e0 : num; e1 : num; e2 : num; e3 : num }.

(** [.xyz] (and [.rgb]) of a [vec4]. *)
Definition xyz (a : vec4) : vec3 := mkVec3 (e0 a) (e1 a) (e2 a).

(** A [sampler2D] is what [texture2D] makes of it: a map from texture
    coordinates to texels. *)
Definition sampler2D : Type := vec2 -> vec4.
Definition texture2D (texture : sampler2D) (coord : vec2) : vec4 :=
  texture coord.

(** The built-in functions that are not rational: kept abstract. *)
Class GLSLMath : Type := {
  glsl_sqrt : num -> num;
  glsl_pow : num -> num -> num
}.

(** The parameters spliced into the shader source. *)
Record Params : Type := mkParams {
  numGBuffers : Z;
  numLights : Z;
  maxClusterLights : Z
}.

Record Light : Type := mkLight {
  position : vec3;
  radius : num;
  color : vec3
}.

(** [float(i + 1) / float(n + 1)]: the coordinate at which texel [i] of a
    row of [n] texels is sampled (lines 34, 36 and 52). *)
Definition texelCoord (n i : Z) : num := (ofZ (i + 1) / ofZ (n + 1))%num.

(** [component / 4] on [int]s, rounding toward zero (line 35), and
    [component - pixel * 4] (line 38). *)
Definition pixelOf (component : Z) : Z := Z.quot component 4.
Definition pixelComponentOf (component : Z) : Z :=
  component - pixelOf component * 4.

(** [ExtractFloat] (lines 33-48); [None] when the function ends without
    a [return]. *)
Definition ExtractFloat (texture : sampler2D)
    (textureWidth textureHeight index component : Z) : option num :=
  let u := texelCoord textureWidth index in
  let pixel := pixelOf component in
  let v := texelCoord textureHeight pixel in
  let texel := texture2D texture (mkVec2 u v) in
  let pixelComponent := pixelComponentOf component in
  if pixelComponent =? 0 then Some (e0 texel)
  else if pixelComponent =? 1 then Some (e1 texel)
  else if pixelComponent =? 2 then Some (e2 texel)
  else if pixelComponent =? 3 then Some (e3 texel)
  else None.

(** [UnpackLight] (lines 50-64). *)
Definition UnpackLight (params : Params) (u_lightbuffer : sampler2D)
    (index : Z) : option Light :=
  let u := texelCoord (numLights params) index in
  let v1 := texture2D u_lightbuffer (mkVec2 u (Fin (3 # 10))) in
  let v2 := texture2D u_lightbuffer (mkVec2 u (Fin (6 # 10))) in
  match ExtractFloat u_lightbuffer (numLights params) 2 index 3 with
  | Some rad => Some (mkLight (xyz v1) rad (xyz v2))
  | None => None
  end.

(** Arithmetic on [vec3]. *)
Definition vadd (a b : vec3) : vec3 :=
  mkVec3 (v0 a + v0 b)%num (v1 a + v1 b)%num (v2 a + v2 b)%num.
Definition vsub (a b : vec3) : vec3 :=
  mkVec3 (v0 a - v0 b)%num (v1 a - v1 b)%num (v2 a - v2 b)%num.
Definition vmul (a b : vec3) : vec3 :=
  mkVec3 (v0 a * v0 b)%num (v1 a * v1 b)%num (v2 a * v2 b)%num.
Definition vscale (a : vec3) (k : num) : vec3 :=
  mkVec3 (v0 a * k)%num (v1 a * k)%num (v2 a * k)%num.
Definition kscale (k : num) (a : vec3) : vec3 :=
  mkVec3 (k * v0 a)%num (k * v1 a)%num (k * v2 a)%num.
Definition vdiv (a : vec3) (k : num) : vec3 :=
  mkVec3 (v0 a / k)%num (v1 a / k)%num (v2 a / k)%num.
Definition dot (a b : vec3) : num :=
  (v0 a * v0 b + v1 a * v1 b + v2 a * v2 b)%num.
Definition splat (k : num) : vec3 := mkVec3 k k k.

(** [max(x, y)]: "returns y if x < y, otherwise x". *)
Definition glsl_max (x y : num) : num := if num_ltb x y then y else x.

Section WithBuiltins.
Context `{JSMath} `{GLSLMath}.

(** [cubicGaussian] (lines 67-75). *)
Definition cubicGaussian (h : num) : num :=
  if num_ltb h (Fin 1) then
    (Fin (1 # 4) * glsl_pow (Fin 2 - h) (Fin 3)
     - glsl_pow (Fin 1 - h) (Fin 3))%num
  else if num_ltb h (Fin 2) then
    (Fin (1 # 4) * glsl_pow (Fin 2 - h) (Fin 3))%num
  else Fin 0.

(** [distance(a, b)] and [normalize(a)]. *)
Definition distance (a b : vec3) : num :=
  glsl_sqrt (dot (vsub a b) (vsub a b)).
Definition normalize (a : vec3) : vec3 := vdiv a (glsl_sqrt (dot a a)).

(** The uniforms, the varying and the parameters read by [main]. *)
Record Inputs : Type := mkInputs {
  params : Params;
  uniforms : Uniforms;
  u_clusterbuffer : sampler2D;
  u_lightbuffer : sampler2D;
  u_gbuffers : nat -> sampler2D;
  u_clusterdims : vec2;
  u_screendims : vec2;
  u_camPos : vec3;
  u_surfaceShader : Z;
  v_uv : vec2
}.

(** Lines 125-151: what one light adds to [fragColor]. *)
Definition shadeLight (inp : Inputs) (pos norm diffuseColor specularColor : vec3)
    (specExponent : num) (light : Light) (fragColor : vec3) : vec3 :=
  if u_surfaceShader inp =? 0 then
    let lightDistance := distance (position light) pos in
    let L := vdiv (vsub (position light) pos) lightDistance in
    let lightIntensity :=
      cubicGaussian (Fin 2 * lightDistance / radius light)%num in
    let lambertTerm := glsl_max (dot L norm) (Fin 0) in
    vadd fragColor
      (vmul (vmul (vscale diffuseColor lambertTerm) (color light))
            (splat lightIntensity))
  else if u_surfaceShader inp =? 1 then
    let lightDistance := distance (position light) pos in
    let L := vdiv (vsub (position light) pos) lightDistance in
    let lightIntensity :=
      cubicGaussian (Fin 2 * lightDistance / radius light)%num in
    let NdotL := glsl_max (dot L norm) (Fin 0) in
    let diffuseTerm := vscale (kscale NdotL (color light)) lightIntensity in
    let view := normalize (vsub (u_camPos inp) pos) in
    let H := normalize (vadd view L) in
    let NdotH := glsl_max (dot H norm) (Fin 0) in
    let specIntensity := glsl_pow NdotH specExponent in
    let specularTerm :=
      vscale (kscale specIntensity (color light)) lightIntensity in
    vadd fragColor
      (vadd (vmul diffuseColor diffuseTerm) (vmul specularColor specularTerm))
  else fragColor.

(** Lines 119-151: the body of the light loop for [i]; [None] when a
    conversion or [ExtractFloat] has no defined result. *)
Definition lightStep (inp : Inputs) (width height clusterIndex : Z)
    (pos norm diffuseColor specularColor : vec3) (specExponent : num)
    (i : Z) (fragColor : vec3) : option vec3 :=
  match ExtractFloat (u_clusterbuffer inp) width height clusterIndex (i + 1)
  with
  | None => None
  | Some f =>
      match glsl_int f with
      | None => None
      | Some lightIdx =>
          match UnpackLight (params inp) (u_lightbuffer inp) lightIdx with
          | None => None
          | Some light =>
              Some (shadeLight inp pos norm diffuseColor specularColor
                      specExponent light fragColor)
          end
      end
  end.

(** [for (int i = 0; i < maxClusterLights; ++i)
       { if (i >= clusterLightsCount) break; ... }] over the values
    [steps] of [i] still to come. *)
Fixpoint lightLoop (steps : list Z) (clusterLightsCount : Z)
    (body : Z -> vec3 -> option vec3) (fragColor : vec3) : option vec3 :=
  match steps with
  | [] => Some fragColor
  | i :: rest =>
      if clusterLightsCount <=? i then Some fragColor
      else match body i fragColor with
           | Some fragColor' => lightLoop rest clusterLightsCount body fragColor'
           | None => None
           end
  end.

(** Lines 98-111: the cluster of the fragment at [pos] and its light
    count, with the dimensions of the cluster texture. *)
Definition clusterOf (inp : Inputs) (pos : vec3) : option (Z * Z * Z * Z) :=
  let viewPos := viewPosition (uniforms inp) pos in
  match fragClusterIndex (uniforms inp) viewPos,
        glsl_int (vx (u_clusterdims inp)), glsl_int (vy (u_clusterdims inp)) with
  | Some clusterIndex, Some width, Some height =>
      match ExtractFloat (u_clusterbuffer inp) width height clusterIndex 0 with
      | Some f =>
          match glsl_int f with
          | Some clusterLightsCount =>
              Some (width, height, clusterIndex, clusterLightsCount)
          | None => None
          end
      | None => None
      end
  | _, _, _ => None
  end.

(** [main]: the value of [gl_FragColor], or [None] when the shader runs
    into an undefined conversion or return value. *)
Definition main (inp : Inputs) : option vec4 :=
  let gb0 := texture2D (u_gbuffers inp 0%nat) (v_uv inp) in
  let gb1 := texture2D (u_gbuffers inp 1%nat) (v_uv inp) in
  let gb2 := texture2D (u_gbuffers inp 2%nat) (v_uv inp) in
  let gb3 := texture2D (u_gbuffers inp 3%nat) (v_uv inp) in
  let pos := xyz gb0 in
  let norm := xyz gb1 in
  let diffuseColor := xyz gb2 in
  let specularColor := splat (Fin 1) in
  let specExponent := e3 gb2 in
  match clusterOf inp pos with
  | None => None
  | Some (width, height, clusterIndex, clusterLightsCount) =>
      let fragColor := splat (Fin 0) in
      match lightLoop (seqZ 0 (maxClusterLights (params inp) - 0))
              clusterLightsCount
              (lightStep inp width height clusterIndex pos norm diffuseColor
                 specularColor specExponent)
              fragColor with
      | None => None
      | Some fragColor =>
          let ambientLight := splat (Fin (25 # 1000)) in
          let fragColor := vadd fragColor (vmul diffuseColor ambientLight) in
          Some (mkVec4 (v0 fragColor) (v1 fragColor) (v2 fragColor) (Fin 1))
      end
  end.

End WithBuiltins.

End Shader.

(** ** Vocabulary for the shader properties *)

(** The component of a texel selected by [pixelComponent]. *)
Definition texelComponent (texel : Shader.vec4) (k : Z) : num :=
  if k =? 0 then Shader.e0 texel
  else if k =? 1 then Shader.e1 texel
  else if k =? 2 then Shader.e2 texel
  else Shader.e3 texel.

(** The texture coordinate [q] lies strictly inside texel [i] of a row
    (or column) of [n] texels spanning [0, 1]. *)
Definition insideTexel (n i : Z) (q : Q) : Prop :=
  (inject_Z i / inject_Z n < q)%Q /\ (q < inject_Z (i + 1) / inject_Z n)%Q.

(** Two textures hold the same texels inside the cell of column [i] and
    row [j] of a grid of [w] by [h] texels. *)
Definition sameTexel (t1 t2 : Shader.sampler2D) (w h i j : Z) : Prop :=
  forall u v : Q, insideTexel w i u -> insideTexel h j v ->
    t1 (Shader.mkVec2 (Fin u) (Fin v)) = t2 (Shader.mkVec2 (Fin u) (Fin v)).

(** A texture of two rows sampled to the nearest texel: the texel does
    not depend on where in the first row the sample falls. *)
Definition firstRowConstant (texture : Shader.sampler2D) : Prop :=
  forall (u : num) (v v' : Q),
    (0 <= v)%Q -> (v < 1 # 2)%Q -> (0 <= v')%Q -> (v' < 1 # 2)%Q ->
    texture (Shader.mkVec2 u (Fin v)) = texture (Shader.mkVec2 u (Fin v')).

(** A sample texture: constant. *)
Definition flatTexture (x : Q) : Shader.sampler2D :=
  fun _ => Shader.mkVec4 (Fin x) (Fin x) (Fin x) (Fin x).

(** A sample texture of two rows: [x] in the first row, [y] in the
    second. *)
Definition bandedTexture (x y : Q) : Shader.sampler2D :=
  fun coord =>
    match Shader.vy coord with
    | Fin v => if Qle_bool v (1 # 2) then flatTexture x coord
               else flatTexture y coord
    | _ => flatTexture y coord
    end.

(** The integer part of a rational: what [int(x)] keeps. *)
Definition Qtrunc (q : Q) : Z := Z.quot (Qnum q) (Zpos (Qden q)).

(** Numbers up to the representation of rationals. *)
Definition num_equiv (a b : num) : Prop :=
  match a, b with
  | Fin x, Fin y => x == y
  | _, _ => a = b
  end.

Definition vec3_equiv (a b : vec3) : Prop :=
  num_equiv (v0 a) (v0 b) /\ num_equiv (v1 a) (v1 b)
  /\ num_equiv (v2 a) (v2 b).

Definition isFin (a : num) : Prop := exists q, a = Fin q.

Definition finite3 (a : vec3) : Prop :=
  isFin (v0 a) /\ isFin (v1 a) /\ isFin (v2 a).

(** [pow(x, 3.0)] is the cube of [x] for [x > 0]. *)
Definition PowCubes `{Shader.GLSLMath} : Prop :=
  forall q : Q, (0 < q)%Q ->
    exists p, Shader.glsl_pow (Fin q) (Fin 3) = Fin p /\ (p == q * q * q)%Q.

(** Stand-ins for [sqrt] and [pow] to run the model on sample inputs:
    [pow] at the integer part of the exponent, [sqrt] rounded down to a
    multiple of the inverse of the denominator. *)
Definition powMath : Shader.GLSLMath :=
  {| Shader.glsl_sqrt := fun a =>
       match a with
       | Fin q =>
           if Qle_bool 0 q
           then Fin (Z.sqrt (Qnum q * Zpos (Qden q)) # Qden q)
           else NaN
       | PInf => PInf
       | _ => NaN
       end;
     Shader.glsl_pow := fun a b =>
       match a, b with
       | Fin q, Fin e => Fin (Qred (Qpower q (Qtrunc e)))
       | _, _ => NaN
       end |}.

(** The colour of a fragment that no light reaches: the ambient term
    (lines 154-157). *)
Definition ambientColor (inp : Shader.Inputs) : Shader.vec4 :=
  let gb2 := Shader.u_gbuffers inp 2%nat (Shader.v_uv inp) in
  Shader.mkVec4 (Fin 0 + Shader.e0 gb2 * Fin (25 # 1000))%num
                (Fin 0 + Shader.e1 gb2 * Fin (25 # 1000))%num
                (Fin 0 + Shader.e2 gb2 * Fin (25 # 1000))%num
                (Fin 1).

(** Sample inputs of [main]: the grid and camera of the sample renderer,
    g-buffers holding [-1] everywhere, a cluster texture holding [count]
    everywhere. *)
Definition sampleInputs (count : Q) (surfaceShader : Z) : Shader.Inputs :=
  {| Shader.params := Shader.mkParams 4 3 500;
     Shader.uniforms := uniformsOf sampleRenderer sampleCamera identityView;
     Shader.u_clusterbuffer := flatTexture count;
     Shader.u_lightbuffer := bandedTexture 2 1;
     Shader.u_gbuffers := fun _ => flatTexture (-1);
     Shader.u_clusterdims := Shader.mkVec2 (Fin 64) (Fin 126);
     Shader.u_screendims := Shader.mkVec2 (Fin 800) (Fin 600);
     Shader.u_camPos := mkVec3 (Fin 0) (Fin 0) (Fin 0);
     Shader.u_surfaceShader := surfaceShader;
     Shader.v_uv := Shader.mkVec2 (Fin (1 # 2)) (Fin (1 # 2)) |}.

(** * Properties *)

(** ** Loops as folds *)

Lemma foldl_bind {A B C : Type} (f : A -> C -> A) (g : B -> list C)
    (l : list B) (a : A) :
  foldl f a (l ≫= g) = foldl (fun a x => foldl f a (g x)) a l.
Proof.
  revert a. induction l as [|x l IH]; intros a; [reflexivity|].
  rewrite bind_cons, foldl_app. simpl. apply IH.
Qed.

Lemma foldl_ext {A B : Type} (f g : A -> B -> A) (l : list B) (a : A) :
  (forall a x, f a x = g a x) -> foldl f a l = foldl g a l.
Proof.
  intros E. revert a. induction l as [|x l IH]; intros a; simpl; [reflexivity|].
  rewrite E. apply IH.
Qed.

Lemma foldl_cells {S : Type} (h : Z -> S -> S) (r : BaseRenderer)
    (zs ys xs : list Z) (s : S) :
  foldl (fun s z => foldl (fun s y => foldl (fun s x =>
     h (clusterIndex1D r x y z) s) s xs) s ys) s zs
  = foldl (fun s c => h c s) s (cells r zs ys xs).
Proof.
  unfold cells. rewrite foldl_bind. apply foldl_ext. intros a z.
  rewrite foldl_bind. apply foldl_ext. intros b y.
  rewrite foldl_bind. apply foldl_ext. intros c x. reflexivity.
Qed.

Lemma forEach_pure {S : Type} (g : Z -> S -> S) (xs : list Z) (s : S) :
  forEach xs (fun x s => Some (g x s)) s = Some (foldl (fun s x => g x s) s xs).
Proof.
  revert s. induction xs as [|x xs IH]; intros s; simpl; [reflexivity|apply IH].
Qed.

Lemma forEach_ext {S : Type} (f g : Z -> S -> option S) (xs : list Z) (s : S) :
  (forall x s, f x s = g x s) -> forEach xs f s = forEach xs g s.
Proof.
  intros E. revert s. induction xs as [|x xs IH]; intros s; simpl; [reflexivity|].
  rewrite E. destruct (g x s); [apply IH|reflexivity].
Qed.

Lemma resetCounts_foldl (r : BaseRenderer) (tb : TextureBuffer) :
  resetCounts r tb = foldl (fun tb c => store tb c 0 0 0) tb (gridCells r).
Proof.
  unfold resetCounts, forZ, gridCells.
  apply (foldl_cells (fun c tb => store tb c 0 0 0)).
Qed.

Lemma forRange_axisCells (lo hi : eint) (slices : Z) :
  wfAxis lo hi slices -> forRange lo hi = Some (axisCells lo hi).
Proof.
  intros [[-> ->]|(a & b & -> & -> & Hab & _)]; [reflexivity|].
  unfold forRange, axisCells, eint_ltb.
  destruct (a <? b) eqn:E; [reflexivity|].
  apply Z.ltb_ge in E. rewrite seqZ_nil by lia. reflexivity.
Qed.

Lemma populate_foldl (r : BaseRenderer) (rg : ClusterRange) (i : Z)
    (tb : TextureBuffer) :
  wfRange r rg ->
  populate r rg i tb
  = Some (foldl (fun tb c => addLight c i tb) tb (rangeCells r rg)).
Proof.
  intros (Hx & Hy & Hz). unfold populate, forLoop, rangeCells.
  rewrite (forRange_axisCells _ _ _ Hx), (forRange_axisCells _ _ _ Hy),
    (forRange_axisCells _ _ _ Hz).
  rewrite <- (foldl_cells (fun c tb => addLight c i tb)).
  rewrite <- forEach_pure. apply forEach_ext. intros z s.
  rewrite <- forEach_pure. apply forEach_ext. intros y s'.
  rewrite <- forEach_pure. reflexivity.
Qed.

(** ** The grid index *)

Lemma clusterIndex1D_range (r : BaseRenderer) (x y z : Z) :
  inGrid r x y z ->
  0 <= clusterIndex1D r x y z < _xSlices r * _ySlices r * _zSlices r.
Proof.
  unfold inGrid, clusterIndex1D. intros (Hx & Hy & Hz).
  set (nx := _xSlices r) in *. set (ny := _ySlices r) in *.
  set (nz := _zSlices r) in *.
  assert (0 <= y * nx) by (apply Z.mul_nonneg_nonneg; lia).
  assert (0 < nx * ny) by (apply Z.mul_pos_pos; lia).
  assert (0 <= z * (nx * ny)) by (apply Z.mul_nonneg_nonneg; lia).
  assert (y * nx <= (ny - 1) * nx) by (apply Z.mul_le_mono_nonneg_r; lia).
  assert (z * (nx * ny) <= (nz - 1) * (nx * ny))
    by (apply Z.mul_le_mono_nonneg_r; lia).
  replace (z * nx * ny) with (z * (nx * ny)) by ring.
  replace (nx * ny * nz) with ((nz - 1) * (nx * ny) + (ny - 1) * nx + nx)
    by ring.
  lia.
Qed.

Lemma small_multiple (n k d : Z) : d = n * k -> - n < d < n -> d = 0.
Proof.
  intros -> Hd.
  destruct (Z_lt_le_dec k 1) as [Hk|Hk]; destruct (Z_lt_le_dec (-1) k) as [Hk'|Hk'].
  - assert (k = 0) by lia. subst k. lia.
  - assert (n * k <= n * (-1)) by (apply Z.mul_le_mono_nonneg_l; lia). lia.
  - assert (n * 1 <= n * k) by (apply Z.mul_le_mono_nonneg_l; lia). lia.
  - lia.
Qed.

Lemma clusterIndex1D_inj (r : BaseRenderer) (x y z x' y' z' : Z) :
  0 <= x < _xSlices r -> 0 <= y < _ySlices r ->
  0 <= x' < _xSlices r -> 0 <= y' < _ySlices r ->
  clusterIndex1D r x y z = clusterIndex1D r x' y' z' ->
  x = x' /\ y = y' /\ z = z'.
Proof.
  unfold clusterIndex1D. intros Hx Hy Hx' Hy' E.
  set (nx := _xSlices r) in *. set (ny := _ySlices r) in *.
  assert (E1 : x - x' = nx * ((y' + z' * ny) - (y + z * ny))) by lia.
  assert (Hxx : x - x' = 0) by (eapply small_multiple; [exact E1|lia]).
  assert (x = x') by lia. subst x'.
  assert (E2 : nx * ((y + z * ny) - (y' + z' * ny)) = 0) by lia.
  apply Z.mul_eq_0 in E2 as [E2|E2]; [lia|].
  assert (E3 : y - y' = ny * (z' - z)) by lia.
  assert (Hyy : y - y' = 0) by (eapply small_multiple; [exact E3|lia]).
  assert (y = y') by lia. subst y'.
  assert (E4 : ny * (z' - z) = 0) by lia.
  apply Z.mul_eq_0 in E4 as [E4|E4]; lia.
Qed.

Lemma elem_of_cells (r : BaseRenderer) (zs ys xs : list Z) (c : Z) :
  c ∈ cells r zs ys xs
  <-> exists x y z, x ∈ xs /\ y ∈ ys /\ z ∈ zs /\ c = clusterIndex1D r x y z.
Proof.
  unfold cells. rewrite list_elem_of_bind. split.
  - intros (z & Hc & Hz). apply list_elem_of_bind in Hc as (y & Hc & Hy).
    apply list_elem_of_bind in Hc as (x & Hc & Hx).
    apply list_elem_of_singleton in Hc. eauto 10.
  - intros (x & y & z & Hx & Hy & Hz & ->). exists z. split; [|done].
    apply list_elem_of_bind. exists y. split; [|done].
    apply list_elem_of_bind. exists x. split; [|done].
    apply list_elem_of_singleton. reflexivity.
Qed.

Lemma NoDup_cells (r : BaseRenderer) (zs ys xs : list Z) :
  (forall x, x ∈ xs -> 0 <= x < _xSlices r) ->
  (forall y, y ∈ ys -> 0 <= y < _ySlices r) ->
  NoDup xs -> NoDup ys -> NoDup zs -> NoDup (cells r zs ys xs).
Proof.
  intros Bx By Nx Ny Nz. unfold cells.
  apply NoDup_bind; [| |exact Nz].
  - intros z1 z2 c _ _ H1 H2.
    apply list_elem_of_bind in H1 as (y1 & H1 & Hy1).
    apply list_elem_of_bind in H1 as (x1 & H1 & Hx1).
    apply list_elem_of_bind in H2 as (y2 & H2 & Hy2).
    apply list_elem_of_bind in H2 as (x2 & H2 & Hx2).
    apply list_elem_of_singleton in H1, H2. subst c.
    eapply clusterIndex1D_inj in H2; [lia|eauto..].
  - intros z _. apply NoDup_bind; [| |exact Ny].
    + intros y1 y2 c Hy1 Hy2 H1 H2.
      apply list_elem_of_bind in H1 as (x1 & H1 & Hx1).
      apply list_elem_of_bind in H2 as (x2 & H2 & Hx2).
      apply list_elem_of_singleton in H1, H2. subst c.
      eapply clusterIndex1D_inj in H2; [lia|eauto..].
    + intros y Hy. apply NoDup_bind; [| |exact Nx].
      * intros x1 x2 c Hx1 Hx2 H1 H2.
        apply list_elem_of_singleton in H1, H2. subst c.
        eapply clusterIndex1D_inj in H2; [lia|eauto..].
      * intros x _. apply NoDup_singleton.
Qed.

Lemma elem_of_gridCells (r : BaseRenderer) (c : Z) :
  c ∈ gridCells r
  <-> exists x y z, inGrid r x y z /\ c = clusterIndex1D r x y z.
Proof.
  unfold gridCells, inGrid. rewrite elem_of_cells. split.
  - intros (x & y & z & Hx & Hy & Hz & ->).
    apply elem_of_seqZ in Hx, Hy, Hz. exists x, y, z. split; [lia|done].
  - intros (x & y & z & (Hx & Hy & Hz) & ->). exists x, y, z.
    rewrite !elem_of_seqZ. split_and!; [lia..|done].
Qed.

Lemma elem_of_axisCells (lo hi : eint) (x : Z) :
  x ∈ axisCells lo hi <-> between lo hi x = true.
Proof.
  unfold axisCells, between.
  destruct lo, hi; try (split; [intros ?%elem_of_nil; done|done]).
  rewrite elem_of_seqZ, andb_true_iff, Z.leb_le, Z.ltb_lt. lia.
Qed.

Lemma axisCells_bounds (lo hi : eint) (slices x : Z) :
  wfAxis lo hi slices -> x ∈ axisCells lo hi -> 0 <= x < slices.
Proof.
  intros [[-> ->]|(a & b & -> & -> & Hab & Hpos & Hneg)]; simpl.
  - intros ?%elem_of_nil; done.
  - rewrite elem_of_seqZ. lia.
Qed.

Lemma elem_of_rangeCells (r : BaseRenderer) (rg : ClusterRange) (c : Z) :
  c ∈ rangeCells r rg
  <-> exists x y z, inRange rg x y z = true /\ c = clusterIndex1D r x y z.
Proof.
  unfold rangeCells, inRange. rewrite elem_of_cells.
  setoid_rewrite elem_of_axisCells. setoid_rewrite andb_true_iff.
  setoid_rewrite andb_true_iff. split.
  - intros (x & y & z & Hx & Hy & Hz & ->). exists x, y, z. tauto.
  - intros (x & y & z & [[Hx Hy] Hz] & ->). exists x, y, z. tauto.
Qed.

Lemma inRange_inGrid (r : BaseRenderer) (rg : ClusterRange) (x y z : Z) :
  wfRange r rg -> inRange rg x y z = true -> inGrid r x y z.
Proof.
  intros (Hx & Hy & Hz). unfold inRange, inGrid.
  rewrite !andb_true_iff, <- !elem_of_axisCells. intros [[Ix Iy] Iz].
  split; [|split]; eapply axisCells_bounds; eassumption.
Qed.

Lemma NoDup_axisCells (lo hi : eint) : NoDup (axisCells lo hi).
Proof.
  unfold axisCells. destruct lo, hi; try apply NoDup_nil_2. apply NoDup_seqZ.
Qed.

Lemma NoDup_rangeCells (r : BaseRenderer) (rg : ClusterRange) :
  wfRange r rg -> NoDup (rangeCells r rg).
Proof.
  intros (Hx & Hy & Hz). unfold rangeCells. apply NoDup_cells.
  - intros x. apply axisCells_bounds, Hx.
  - intros y. apply axisCells_bounds, Hy.
  - apply NoDup_axisCells.
  - apply NoDup_axisCells.
  - apply NoDup_axisCells.
Qed.

(** ** Reads and writes of the typed array *)

Lemma store_pixelsPerElement (tb : TextureBuffer) (c p k v : Z) :
  _pixelsPerElement (store tb c p k v) = _pixelsPerElement tb.
Proof. reflexivity. Qed.

Lemma store_length (tb : TextureBuffer) (c p k v : Z) :
  length (_buffer (store tb c p k v)) = length (_buffer tb).
Proof.
  unfold store, bufSet; simpl. case_decide; [apply length_insert|reflexivity].
Qed.

Lemma bufferIndex_store (tb : TextureBuffer) (c p k v c' g : Z) :
  bufferIndex (store tb c p k v) c' g = bufferIndex tb c' g.
Proof. reflexivity. Qed.

Lemma bufGet_None (tb : TextureBuffer) (a : Z) :
  ~ (0 <= a < Z.of_nat (length (_buffer tb))) -> bufGet tb a = None.
Proof.
  intros Hn. unfold bufGet. case_decide; [|reflexivity].
  apply lookup_ge_None. lia.
Qed.

Lemma bufGet_is_Some (tb : TextureBuffer) (a : Z) :
  is_Some (bufGet tb a) <-> 0 <= a < Z.of_nat (length (_buffer tb)).
Proof.
  unfold bufGet. case_decide.
  - rewrite lookup_lt_is_Some. lia.
  - split; [intros [? ?]; discriminate|lia].
Qed.

Lemma bufGet_store (tb : TextureBuffer) (c p k v a : Z) :
  bufGet (store tb c p k v) a
  = if decide (a = address tb (mkWrite c p k)
               /\ 0 <= a < Z.of_nat (length (_buffer tb)))
    then Some v else bufGet tb a.
Proof.
  unfold bufGet, store, bufSet; simpl.
  set (w := address tb (mkWrite c p k)).
  destruct (decide (0 <= a)) as [Ha|Ha].
  - destruct (decide (0 <= w)) as [Hw|Hw].
    + destruct (decide (a = w /\ 0 <= a < Z.of_nat (length (_buffer tb))))
        as [[-> Hb]|Hn].
      * apply list_lookup_insert_eq. lia.
      * destruct (decide (a = w)) as [->|Hne].
        -- rewrite list_insert_ge by lia. reflexivity.
        -- apply list_lookup_insert_ne. lia.
    + case_decide; [lia|reflexivity].
  - case_decide; [lia|reflexivity].
Qed.

Lemma bufGet_nat (tb : TextureBuffer) (i : nat) :
  bufGet tb (Z.of_nat i) = _buffer tb !! i.
Proof.
  unfold bufGet. case_decide; [|lia]. rewrite Nat2Z.id. reflexivity.
Qed.

(** ** The reset loop *)


Lemma reset_fold_zero (cs : list Z) (tb : TextureBuffer) (a : Z) :
  bufGet tb a = Some 0 ->
  bufGet (foldl (fun tb c => store tb c 0 0 0) tb cs) a = Some 0.
Proof.
  revert tb. induction cs as [|c cs IH]; intros tb Hz; simpl; [exact Hz|].
  apply IH. rewrite bufGet_store. case_decide; [reflexivity|exact Hz].
Qed.

Lemma reset_fold_hits (cs : list Z) (tb : TextureBuffer) (c : Z) :
  c ∈ cs ->
  0 <= bufferIndex tb c 0 < Z.of_nat (length (_buffer tb)) ->
  bufGet (foldl (fun tb c => store tb c 0 0 0) tb cs) (bufferIndex tb c 0)
  = Some 0.
Proof.
  revert tb. induction cs as [|c' cs IH]; intros tb Hin Hb; simpl.
  - by apply elem_of_nil in Hin.
  - apply elem_of_cons in Hin as [->|Hin].
    + apply reset_fold_zero. rewrite bufGet_store.
      case_decide as Hd; [reflexivity|]. exfalso. apply Hd.
      split; [|exact Hb]. unfold address; simpl. lia.
    + rewrite <- (bufferIndex_store tb c' 0 0 0 c 0). apply IH; [exact Hin|].
      rewrite bufferIndex_store, store_length. exact Hb.
Qed.

Lemma reset_fold_length (cs : list Z) (tb : TextureBuffer) :
  length (_buffer (foldl (fun tb c => store tb c 0 0 0) tb cs))
  = length (_buffer tb).
Proof.
  revert tb. induction cs as [|c cs IH]; intros tb; simpl; [reflexivity|].
  rewrite IH. apply store_length.
Qed.

Lemma reset_fold_pixels (cs : list Z) (tb : TextureBuffer) :
  _pixelsPerElement (foldl (fun tb c => store tb c 0 0 0) tb cs)
  = _pixelsPerElement tb.
Proof.
  revert tb. induction cs as [|c cs IH]; intros tb; simpl; [reflexivity|].
  rewrite IH. reflexivity.
Qed.

Lemma reset_fold_writes (cs : list Z) (tb : TextureBuffer) :
  writes (foldl (fun tb c => store tb c 0 0 0) tb cs)
  = reverse ((fun c => mkWrite c 0 0) <$> cs) ++ writes tb.
Proof.
  revert tb. induction cs as [|c cs IH]; intros tb; simpl; [reflexivity|].
  rewrite IH. rewrite reverse_cons, <- app_assoc. reflexivity.
Qed.


(** ** The body of the population loop *)

Lemma div_rem_4 (n : Z) :
  0 <= n -> n / 4 * 4 + Z.rem n 4 = n /\ 0 <= n / 4 /\ 0 <= Z.rem n 4 < 4.
Proof.
  intros Hn. rewrite Z.rem_mod_nonneg by lia.
  pose proof (Z.div_mod n 4 ltac:(lia)).
  pose proof (Z.mod_pos_bound n 4 ltac:(lia)).
  pose proof (Z.div_pos n 4 Hn ltac:(lia)). lia.
Qed.

Lemma addLight_full (c i v : Z) (tb : TextureBuffer) :
  bufGet tb (bufferIndex tb c 0) = Some v ->
  MAX_LIGHTS_PER_CLUSTER <= v ->
  addLight c i tb = tb.
Proof.
  intros Hv Hfull. unfold addLight. rewrite Hv.
  destruct (v <? MAX_LIGHTS_PER_CLUSTER) eqn:E; [|reflexivity].
  apply Z.ltb_lt in E. lia.
Qed.

Lemma addLight_room (c i v : Z) (tb : TextureBuffer) :
  bufGet tb (bufferIndex tb c 0) = Some v ->
  v < MAX_LIGHTS_PER_CLUSTER ->
  addLight c i tb
  = store (store tb c 0 0 (v + 1)) c ((v + 1) / 4) (Z.rem (v + 1) 4) i.
Proof.
  intros Hv Hroom. unfold addLight. rewrite Hv.
  destruct (v <? MAX_LIGHTS_PER_CLUSTER) eqn:E;
    [|apply Z.ltb_ge in E; lia].
  cbv zeta. rewrite bufGet_store.
  case_decide as Hd; [reflexivity|]. exfalso. apply Hd. split.
  - unfold address; simpl. lia.
  - apply bufGet_is_Some. rewrite Hv. eauto.
Qed.

Lemma addLight_textureInv (r : BaseRenderer) (c i : Z) (tb : TextureBuffer) :
  textureInv r tb -> textureInv r (addLight c i tb).
Proof.
  intros Ht. unfold addLight.
  destruct (bufGet tb _) as [v|]; [|exact Ht].
  destruct (v <? _); [|exact Ht].
  destruct (bufGet _ _); destruct Ht as [Hp Hl]; split;
    rewrite ?store_pixelsPerElement, ?store_length; assumption.
Qed.

Lemma inBounds_shape (r : BaseRenderer) (tb tb' : TextureBuffer) (w : Write) :
  _pixelsPerElement tb' = _pixelsPerElement tb ->
  length (_buffer tb') = length (_buffer tb) ->
  inBounds r tb w -> inBounds r tb' w.
Proof.
  unfold inBounds, address, bufferIndex. intros -> ->. tauto.
Qed.

Lemma gridCells_range (r : BaseRenderer) (c : Z) :
  c ∈ gridCells r -> 0 <= c < _xSlices r * _ySlices r * _zSlices r.
Proof.
  intros (x & y & z & Hg & ->)%elem_of_gridCells.
  by apply clusterIndex1D_range.
Qed.

Lemma addLight_Inv (r : BaseRenderer) (tb0 tb : TextureBuffer)
    (f : Z -> list Z) (c i : Z) :
  Inv r tb0 tb f -> c ∈ gridCells r ->
  Inv r tb0 (addLight c i tb)
      (fun c' => if decide (c' = c) then f c' ++ [i] else f c').
Proof.
  intros (Ht & HR & ws & Hws & Hfa) Hc.
  pose proof (gridCells_range r c Hc) as Hcr.
  destruct (HR c Hc) as [Hcount Hslots].
  destruct Ht as [Hp Hl].
  set (n := length (f c)) in *.
  unfold MAX_LIGHTS_PER_CLUSTER in *.
  destruct (decide (Z.of_nat n < 500)) as [Hroom|Hfull].
  - (* the cluster has room: two writes *)
    rewrite Z.min_l in Hcount by lia.
    rewrite (addLight_room c i _ tb Hcount) by (unfold MAX_LIGHTS_PER_CLUSTER; lia).
    destruct (div_rem_4 (Z.of_nat n + 1)) as (Hdr & Hd & Hr); [lia|].
    set (tb' := store (store tb c 0 0 _) c _ _ i).
    assert (Hp' : _pixelsPerElement tb' = 126) by exact Hp.
    assert (Hl' : length (_buffer tb') = length (_buffer tb)).
    { unfold tb'. rewrite !store_length. reflexivity. }
    assert (Hget : forall a, bufGet tb' a
      = if decide (a = c * 504 + Z.of_nat n + 1) then Some i
        else if decide (a = c * 504) then Some (Z.of_nat n + 1)
        else bufGet tb a).
    { intros a. unfold tb'. rewrite !bufGet_store, store_length.
      unfold address, bufferIndex.
      cbn [w_cluster w_pixel w_component]. rewrite store_pixelsPerElement, Hp.
      repeat case_decide; try reflexivity; lia. }
    split; [split; [exact Hp'|lia]|]. split.
    + intros c' Hc'. pose proof (gridCells_range r c' Hc') as Hcr'.
      destruct (HR c' Hc') as [Hcount' Hslots'].
      unfold lightCount, bufferIndex, MAX_LIGHTS_PER_CLUSTER in *.
      rewrite Hp', Hp in *.
      split.
      * rewrite Hget. destruct (decide (c' = c)) as [->|Hne].
        -- rewrite length_app; simpl. fold n.
           repeat case_decide; try lia. f_equal. lia.
        -- repeat case_decide; try lia. exact Hcount'.
      * intros k Hk Hk5. rewrite Hget.
        destruct (decide (c' = c)) as [->|Hne].
        -- rewrite length_app in Hk; simpl in Hk. fold n in Hk.
           destruct (decide (k = n)) as [->|Hkn].
           ++ repeat case_decide; try lia.
              symmetry. apply list_lookup_middle. reflexivity.
           ++ repeat case_decide; try lia.
              rewrite lookup_app_l by (fold n; lia).
              apply Hslots; fold n; lia.
        -- repeat case_decide; try lia. apply Hslots'; lia.
    + exists (mkWrite c ((Z.of_nat n + 1) / 4) (Z.rem (Z.of_nat n + 1) 4)
              :: mkWrite c 0 0 :: ws).
      split; [unfold tb'; simpl; rewrite Hws; reflexivity|].
      repeat apply Forall_cons_2.
      * unfold inBounds, address, bufferIndex.
        cbn [w_cluster w_pixel w_component]. rewrite Hl', Hp'. lia.
      * unfold inBounds, address, bufferIndex.
        cbn [w_cluster w_pixel w_component]. rewrite Hl', Hp'. lia.
      * eapply Forall_impl; [exact Hfa|]. intros w.
        apply inBounds_shape; [rewrite Hp', Hp; reflexivity|exact Hl'].
  - (* the cluster is full: nothing happens *)
    rewrite Z.min_r in Hcount by lia.
    rewrite (addLight_full c i _ tb Hcount) by (unfold MAX_LIGHTS_PER_CLUSTER; lia).
    split; [split; assumption|]. split; [|eauto].
    intros c' Hc'. destruct (HR c' Hc') as [Hcount' Hslots'].
    destruct (decide (c' = c)) as [->|Hne]; [|split; assumption].
    unfold MAX_LIGHTS_PER_CLUSTER in *.
    rewrite length_app; simpl. fold n. split.
    + rewrite Hcount. f_equal. lia.
    + intros k Hk Hk5. rewrite lookup_app_l by (fold n; lia).
      apply Hslots; fold n; lia.
Qed.

(** ** The invariant along the loops *)

Lemma Inv_ext (r : BaseRenderer) (tb0 tb : TextureBuffer) (f g : Z -> list Z) :
  (forall c, f c = g c) -> Inv r tb0 tb f -> Inv r tb0 tb g.
Proof.
  intros E (Ht & HR & Hw). split; [exact Ht|]. split; [|exact Hw].
  intros c Hc. rewrite <- E. apply HR, Hc.
Qed.

Lemma addLight_fold_Inv (r : BaseRenderer) (tb0 : TextureBuffer) (i : Z)
    (cs : list Z) :
  NoDup cs -> (forall c, c ∈ cs -> c ∈ gridCells r) ->
  forall (tb : TextureBuffer) (f : Z -> list Z),
  Inv r tb0 tb f ->
  Inv r tb0 (foldl (fun tb c => addLight c i tb) tb cs)
      (fun c => if decide (c ∈ cs) then f c ++ [i] else f c).
Proof.
  induction 1 as [|c cs Hnin Hnd IH]; intros Hg tb f HI; simpl.
  - exact HI.
  - eapply Inv_ext; cycle 1.
    + apply IH; [intros c' Hc'; apply Hg; by right|].
      apply addLight_Inv; [exact HI|apply Hg; by left].
    + intros c'. cbv beta. destruct (decide (c' = c)) as [->|Hne].
      * rewrite decide_False by exact Hnin. rewrite decide_True by left.
        reflexivity.
      * destruct (decide (c' ∈ cs)) as [Hin|Hout].
        -- rewrite decide_True by (by right). reflexivity.
        -- rewrite decide_False; [reflexivity|].
           intros [?|?]%elem_of_cons; done.
Qed.

Lemma resetCounts_Inv (r : BaseRenderer) (tb : TextureBuffer) :
  textureInv r tb -> Inv r tb (resetCounts r tb) (fun _ => []).
Proof.
  intros [Hp Hl]. rewrite resetCounts_foldl.
  assert (Hp' : _pixelsPerElement
            (foldl (fun tb c => store tb c 0 0 0) tb (gridCells r)) = 126)
    by (rewrite reset_fold_pixels; exact Hp).
  split; [split; [exact Hp'|rewrite reset_fold_length; exact Hl]|]. split.
  - intros c Hc. pose proof (gridCells_range r c Hc) as Hcr.
    split; [|simpl; intros; lia].
    unfold lightCount. simpl.
    replace (bufferIndex _ c 0) with (bufferIndex tb c 0)
      by (unfold bufferIndex; rewrite Hp', Hp; reflexivity).
    apply reset_fold_hits; [exact Hc|].
    unfold bufferIndex. rewrite Hp. lia.
  - eexists. split; [apply reset_fold_writes|].
    apply Forall_reverse, Forall_fmap, Forall_forall. intros c Hc.
    pose proof (gridCells_range r c Hc) as Hcr.
    unfold inBounds, address, bufferIndex; simpl.
    rewrite reset_fold_length, Hp'. lia.
Qed.

(** ** The clamp and the swap *)

Lemma clampSwap_wf (lo hi : eint) (slices : Z) :
  wfAxis (clampSwap lo hi slices).1 (clampSwap lo hi slices).2 slices.
Proof.
  unfold clampSwap, clampClusterIndex, wfAxis.
  destruct lo as [| | |a], hi as [| | |b]; simpl;
    try (left; split; reflexivity);
    right; eexists _, _; (split; [reflexivity|]); (split; [reflexivity|]); lia.
Qed.

Section RangeFacts.
Context `{JSMath}.

Lemma lightRange_wf (r : BaseRenderer) (camera : Camera) (viewMatrix : mat4)
    (light : Light) :
  wfRange r (lightRange r camera viewMatrix light).
Proof.
  unfold lightRange, wfRange.
  set (raw := rawRange r camera viewMatrix light).
  pose proof (clampSwap_wf (xMin raw) (xMax raw) (_xSlices r)) as Hx.
  pose proof (clampSwap_wf (yMin raw) (yMax raw) (_ySlices r)) as Hy.
  pose proof (clampSwap_wf (zMin raw) (zMax raw) (_zSlices r)) as Hz.
  destruct (clampSwap (xMin raw) _ _), (clampSwap (yMin raw) _ _),
    (clampSwap (zMin raw) _ _). simpl in *. tauto.
Qed.

Lemma rangeCells_grid (r : BaseRenderer) (rg : ClusterRange) (c : Z) :
  wfRange r rg -> c ∈ rangeCells r rg -> c ∈ gridCells r.
Proof.
  intros Hwf (x & y & z & Hin & ->)%elem_of_rangeCells.
  apply elem_of_gridCells. exists x, y, z. split; [|reflexivity].
  eapply inRange_inGrid; eassumption.
Qed.

Lemma lightsLoop_Inv (r : BaseRenderer) (camera : Camera) (viewMatrix : mat4)
    (tb0 : TextureBuffer) (ls : list Light) :
  forall (i : Z) (tb : TextureBuffer) (f : Z -> list Z),
  Inv r tb0 tb f ->
  exists tb', lightsLoop r camera viewMatrix i ls tb = Some tb'
    /\ Inv r tb0 tb' (fun c => f c ++ hits r camera viewMatrix i ls c).
Proof.
  induction ls as [|light ls IH]; intros i tb f HI; simpl.
  - exists tb. split; [reflexivity|]. eapply Inv_ext; [|exact HI].
    intros c. by rewrite app_nil_r.
  - pose proof (lightRange_wf r camera viewMatrix light) as Hwf.
    rewrite (populate_foldl _ _ _ _ Hwf).
    set (rg := lightRange r camera viewMatrix light) in *.
    destruct (IH (i + 1) _ _
      (addLight_fold_Inv r tb0 i (rangeCells r rg) (NoDup_rangeCells r rg Hwf)
         (fun c => rangeCells_grid r rg c Hwf) tb f HI)) as (tb' & E & HI').
    exists tb'. split; [exact E|]. eapply Inv_ext; [|exact HI'].
    intros c. cbn [hits]. fold rg. case_decide; [|reflexivity].
    rewrite <- app_assoc. reflexivity.
Qed.

Lemma hits_overlapping (r : BaseRenderer) (camera : Camera) (viewMatrix : mat4)
    (ls : list Light) (x y z : Z) :
  inGrid r x y z ->
  forall i, hits r camera viewMatrix i ls (clusterIndex1D r x y z)
            = overlapping r camera viewMatrix i ls x y z.
Proof.
  intros Hg. induction ls as [|light ls IH]; intros i; simpl; [reflexivity|].
  rewrite IH.
  pose proof (lightRange_wf r camera viewMatrix light) as Hwf.
  set (rg := lightRange r camera viewMatrix light) in *.
  destruct (inRange rg x y z) eqn:E.
  - rewrite decide_True; [reflexivity|].
    apply elem_of_rangeCells; eauto.
  - rewrite decide_False; [reflexivity|].
    intros (x' & y' & z' & Hin & Heq)%elem_of_rangeCells.
    pose proof (inRange_inGrid r rg x' y' z' Hwf Hin) as Hg'.
    destruct Hg as (? & ? & ?), Hg' as (? & ? & ?).
    apply clusterIndex1D_inj in Heq as (-> & -> & ->); [|assumption..].
    congruence.
Qed.

End RangeFacts.

(** ** The trace accounts for every change *)

Lemma Frame_refl (tb : TextureBuffer) : Frame tb tb.
Proof. split; [reflexivity|]. exists []. split; [reflexivity|]. reflexivity. Qed.

Lemma Frame_trans (tb1 tb2 tb3 : TextureBuffer) :
  Frame tb1 tb2 -> Frame tb2 tb3 -> Frame tb1 tb3.
Proof.
  intros (Hp1 & ws1 & Hw1 & Hk1) (Hp2 & ws2 & Hw2 & Hk2).
  split; [congruence|]. exists (ws2 ++ ws1).
  split; [rewrite Hw2, Hw1, app_assoc; reflexivity|].
  intros a Ha. rewrite Hk2, Hk1; [reflexivity| |].
  - intros w Hw. apply Ha, elem_of_app. by right.
  - intros w Hw. unfold address, bufferIndex. rewrite Hp1.
    apply Ha, elem_of_app. by left.
Qed.

Lemma Frame_store (tb : TextureBuffer) (c p k v : Z) :
  Frame tb (store tb c p k v).
Proof.
  split; [reflexivity|]. exists [mkWrite c p k]. split; [reflexivity|].
  intros a Ha. rewrite bufGet_store. case_decide as Hd; [|reflexivity].
  destruct Hd as [-> _]. exfalso. eapply Ha; [|reflexivity]. left.
Qed.

Lemma Frame_addLight (tb : TextureBuffer) (c i : Z) :
  Frame tb (addLight c i tb).
Proof.
  unfold addLight. destruct (bufGet tb _) as [v|]; [|apply Frame_refl].
  destruct (v <? _); [|apply Frame_refl]. cbv zeta.
  destruct (bufGet _ _).
  - eapply Frame_trans; apply Frame_store.
  - apply Frame_store.
Qed.

Lemma Frame_foldl {A : Type} (g : A -> TextureBuffer -> TextureBuffer)
    (xs : list A) :
  (forall x tb, Frame tb (g x tb)) ->
  forall tb, Frame tb (foldl (fun tb x => g x tb) tb xs).
Proof.
  intros Hg. induction xs as [|x xs IH]; intros tb; simpl.
  - apply Frame_refl.
  - eapply Frame_trans; [apply Hg|apply IH].
Qed.

Lemma Frame_resetCounts (r : BaseRenderer) (tb : TextureBuffer) :
  Frame tb (resetCounts r tb).
Proof.
  rewrite resetCounts_foldl.
  apply (Frame_foldl (fun c tb => store tb c 0 0 0)).
  intros c tb'. apply Frame_store.
Qed.

(** ** The constructor *)

Lemma constructor_rendererInv (xSlices ySlices zSlices : Z) (r : BaseRenderer) :
  0 <= xSlices * ySlices * zSlices ->
  constructor xSlices ySlices zSlices = Returned r ->
  rendererInv r.
Proof.
  intros Hn [= <-]. unfold rendererInv, textureInv; simpl.
  split; [split; [reflexivity|]|split; reflexivity].
  rewrite length_replicate.
  change (Qceiling (inject_Z (MAX_LIGHTS_PER_CLUSTER + 1) / 4)) with 126.
  lia.
Qed.

Lemma sampleRenderer_constructed : constructor 4 4 4 = Returned sampleRenderer.
Proof. reflexivity. Qed.

(** ** Reading a cluster record *)

Lemma lightSlot_flat (tb : TextureBuffer) (c k : Z) :
  0 <= k -> lightSlot tb c k = bufGet tb (bufferIndex tb c 0 + k).
Proof.
  intros Hk. unfold lightSlot, bufferIndex.
  destruct (div_rem_4 k Hk) as (E & _ & _). f_equal. lia.
Qed.

Lemma storedLights_Rep (r : BaseRenderer) (tb : TextureBuffer)
    (f : Z -> list Z) (c : Z) :
  Rep r tb f -> c ∈ gridCells r ->
  storedLights tb c (Z.min (Z.of_nat (length (f c))) MAX_LIGHTS_PER_CLUSTER)
  = Some <$> take (Z.to_nat MAX_LIGHTS_PER_CLUSTER) (f c).
Proof.
  intros HR Hc. destruct (HR c Hc) as [_ Hslots].
  unfold storedLights, MAX_LIGHTS_PER_CLUSTER in *.
  set (n := length (f c)) in *. apply list_eq. intros j.
  rewrite !list_lookup_fmap.
  destruct (decide (Z.of_nat j < Z.min (Z.of_nat n) 500)) as [Hlt|Hge].
  - rewrite lookup_seqZ_lt by exact Hlt. simpl.
    rewrite lightSlot_flat by lia.
    rewrite lookup_take_lt by lia.
    replace (bufferIndex tb c 0 + (1 + Z.of_nat j))
      with (bufferIndex tb c 0 + 1 + Z.of_nat j) by lia.
    rewrite Hslots by lia.
    destruct (lookup_lt_is_Some_2 (f c) j ltac:(fold n; lia)) as [v ->].
    reflexivity.
  - rewrite lookup_seqZ_ge by lia. simpl. symmetry.
    destruct (decide (500 <= j)%nat).
    + rewrite lookup_take_ge by lia. reflexivity.
    + rewrite lookup_take_lt by lia.
      rewrite lookup_ge_None_2 by (fold n; lia). reflexivity.
Qed.

Section MainTheorems.
Context `{JSMath}.

Lemma Frame_lightsLoop (r : BaseRenderer) (camera : Camera)
    (viewMatrix : mat4) (ls : list Light) :
  forall (i : Z) (tb tb' : TextureBuffer),
  lightsLoop r camera viewMatrix i ls tb = Some tb' -> Frame tb tb'.
Proof.
  induction ls as [|light ls IH]; intros i tb tb'; simpl.
  - intros [= <-]. apply Frame_refl.
  - rewrite (populate_foldl _ _ _ _ (lightRange_wf r camera viewMatrix light)).
    intros E. eapply Frame_trans; [|eapply IH, E].
    apply (Frame_foldl (fun c tb => addLight c i tb)).
    intros c tb1. apply Frame_addLight.
Qed.

Lemma updateClusters_Frame (r r' : BaseRenderer) (camera : Camera)
    (viewMatrix : mat4) (scene : Scene) (wireframe : bool) :
  updateClusters r camera viewMatrix scene wireframe = Some r' ->
  Frame (_clusterTexture r) (_clusterTexture r').
Proof.
  unfold updateClusters, update.
  destruct (lightsLoop _ _ _ _ _ _) as [tb'|] eqn:E; [|discriminate].
  intros [= <-]. simpl.
  eapply Frame_trans; [apply Frame_resetCounts|].
  eapply Frame_lightsLoop, E.
Qed.

Lemma updateClusters_Inv (r : BaseRenderer) (camera : Camera)
    (viewMatrix : mat4) (scene : Scene) (wireframe : bool) :
  textureInv r (_clusterTexture r) ->
  exists tb', updateClusters r camera viewMatrix scene wireframe
              = Some (set_clusterTexture r tb')
    /\ Inv r (_clusterTexture r) tb'
         (hits r camera viewMatrix 0 (lights scene)).
Proof.
  intros Ht. unfold updateClusters, update.
  destruct (lightsLoop_Inv r camera viewMatrix (_clusterTexture r)
    (lights scene) 0 _ _ (resetCounts_Inv r _ Ht)) as (tb' & -> & HI).
  exists tb'. split; [reflexivity|exact HI].
Qed.

Lemma updateClusters_rendererInv (r r' : BaseRenderer) (camera : Camera)
    (viewMatrix : mat4) (scene : Scene) (wireframe : bool) :
  rendererInv r ->
  updateClusters r camera viewMatrix scene wireframe = Some r' ->
  rendererInv r'.
Proof.
  intros (Ht & Hn & Hs) E.
  destruct (updateClusters_Inv r camera viewMatrix scene wireframe Ht)
    as (tb' & E' & Ht' & _).
  rewrite E in E'. injection E' as ->.
  split; [exact Ht'|]. split; assumption.
Qed.

Lemma updateClusters_cluster (r : BaseRenderer) (camera : Camera)
    (viewMatrix : mat4) (scene : Scene) (wireframe : bool) (x y z : Z) :
  rendererInv r -> inGrid r x y z ->
  exists r', updateClusters r camera viewMatrix scene wireframe = Some r'
    /\ let tb' := _clusterTexture r' in
       let c := clusterIndex1D r x y z in
       let ov := overlapping r camera viewMatrix 0 (lights scene) x y z in
       let n := Z.min (Z.of_nat (length ov)) MAX_LIGHTS_PER_CLUSTER in
       lightCount tb' c = Some n
       /\ n <= MAX_LIGHTS_PER_CLUSTER
       /\ storedLights tb' c n
          = Some <$> take (Z.to_nat MAX_LIGHTS_PER_CLUSTER) ov.
Proof.
  intros (Ht & _) Hg.
  destruct (updateClusters_Inv r camera viewMatrix scene wireframe Ht)
    as (tb' & -> & _ & HR & _).
  eexists. split; [reflexivity|]. simpl.
  assert (Hc : clusterIndex1D r x y z ∈ gridCells r)
    by (apply elem_of_gridCells; eauto).
  rewrite <- (hits_overlapping r camera viewMatrix (lights scene) x y z Hg 0).
  split; [apply HR, Hc|]. split; [lia|].
  apply (storedLights_Rep r tb' _ _ HR Hc).
Qed.

(** C1. After [updateClusters], the count of every cluster of the grid is
    the number of lights whose range contains the cluster, capped at
    [MAX_LIGHTS_PER_CLUSTER]; it never exceeds the capacity; and the
    stored indices are the first [MAX_LIGHTS_PER_CLUSTER] such lights, in
    scene order.  The call returns. *)
Theorem updateClusters_capacity (r : BaseRenderer) (camera : Camera)
    (viewMatrix : mat4) (scene : Scene) (wireframe : bool) (x y z : Z) :
  rendererInv r -> inGrid r x y z ->
  exists r', updateClusters r camera viewMatrix scene wireframe = Some r'
    /\ let tb' := _clusterTexture r' in
       let c := clusterIndex1D r x y z in
       let ov := overlapping r camera viewMatrix 0 (lights scene) x y z in
       let n := Z.min (Z.of_nat (length ov)) MAX_LIGHTS_PER_CLUSTER in
       lightCount tb' c = Some n
       /\ n <= MAX_LIGHTS_PER_CLUSTER
       /\ storedLights tb' c n
          = Some <$> take (Z.to_nat MAX_LIGHTS_PER_CLUSTER) ov.
Proof. apply updateClusters_cluster. Qed.

(** C10. Every write made by [updateClusters] stays inside the cluster
    buffer: its cluster index lies in [0, nx*ny*nz), its group offset in
    [0, 126), its component in [0, 4), and its address inside the typed
    array, whose length the call does not change.  The listed writes are
    all there is: a cell that none of them addresses is left as it was.
    Every cluster visited by the population loop has its index in
    [0, nx*ny*nz), and the group offsets fit because
    [floor(500 / 4) = 125]. *)
Theorem updateClusters_writes_inBounds (r : BaseRenderer) (camera : Camera)
    (viewMatrix : mat4) (scene : Scene) (wireframe : bool) :
  rendererInv r ->
  exists r' ws,
    updateClusters r camera viewMatrix scene wireframe = Some r'
    /\ writes (_clusterTexture r') = ws ++ writes (_clusterTexture r)
    /\ Forall (inBounds r (_clusterTexture r')) ws
    /\ (forall a, (forall w, w ∈ ws -> address (_clusterTexture r) w <> a) ->
          bufGet (_clusterTexture r') a = bufGet (_clusterTexture r) a)
    /\ (forall light c,
          c ∈ rangeCells r (lightRange r camera viewMatrix light) ->
          0 <= c < _xSlices r * _ySlices r * _zSlices r)
    /\ length (_buffer (_clusterTexture r'))
       = length (_buffer (_clusterTexture r))
    /\ _elementSize r' = EInt 126
    /\ MAX_LIGHTS_PER_CLUSTER / 4 = 126 - 1.
Proof.
  intros (Ht & _ & Hsz).
  destruct (updateClusters_Inv r camera viewMatrix scene wireframe Ht)
    as (tb' & E & (Hp & Hl) & _ & ws & Hws & Hfa).
  destruct (updateClusters_Frame _ _ _ _ _ _ E) as (_ & ws' & Hws' & Hk).
  simpl in Hws', Hk.
  assert (ws' = ws) as ->
    by (apply (app_inv_tail (writes (_clusterTexture r))); congruence).
  exists (set_clusterTexture r tb'), ws. simpl.
  split; [exact E|]. split; [exact Hws|]. split; [exact Hfa|].
  split; [exact Hk|]. split.
  { intros light c Hc. eapply gridCells_range, rangeCells_grid; [|exact Hc].
    apply lightRange_wf. }
  split; [destruct Ht as [_ Hl0]; lia|]. split; [exact Hsz|].
  reflexivity.
Qed.

End MainTheorems.

(** ** The grid and the reset *)

(** C4. For a cluster [(x, y, z)] of the grid the row-major index
    [x + y*nx + z*nx*ny] lies in [0, nx*ny*nz), and two clusters of the
    grid with the same index are the same cluster.  The reset loop writes
    the count slot of exactly the clusters [clusterIndex1D r x y z] of the
    grid, and the population loop runs its body on exactly the clusters
    [clusterIndex1D r x y z] of the light's range. *)
Theorem clusterIndex1D_bijective (r : BaseRenderer) (x y z x' y' z' : Z) :
  inGrid r x y z -> inGrid r x' y' z' ->
  (0 <= clusterIndex1D r x y z < _xSlices r * _ySlices r * _zSlices r)
  /\ clusterIndex1D r x y z = x + y * _xSlices r + z * _xSlices r * _ySlices r
  /\ (clusterIndex1D r x y z = clusterIndex1D r x' y' z'
      -> x = x' /\ y = y' /\ z = z')
  /\ (forall tb, resetCounts r tb
        = foldl (fun tb c => store tb c 0 0 0) tb (gridCells r))
  /\ (forall c, c ∈ gridCells r
        <-> exists x y z, inGrid r x y z /\ c = clusterIndex1D r x y z)
  /\ (forall rg i tb, wfRange r rg ->
        populate r rg i tb
        = Some (foldl (fun tb c => addLight c i tb) tb (rangeCells r rg)))
  /\ (forall rg c, c ∈ rangeCells r rg
        <-> exists x y z, inRange rg x y z = true
                          /\ c = clusterIndex1D r x y z).
Proof.
  intros Hg Hg'. split; [by apply clusterIndex1D_range|].
  split; [reflexivity|]. split.
  - destruct Hg as (? & ? & ?), Hg' as (? & ? & ?).
    by apply clusterIndex1D_inj.
  - split; [apply resetCounts_foldl|]. split; [apply elem_of_gridCells|].
    split; [intros; by apply populate_foldl|apply elem_of_rangeCells].
Qed.


(** ** The theorems at the sample frame *)

Lemma sampleRenderer_inv : rendererInv sampleRenderer.
Proof.
  split; [split; [reflexivity|vm_compute; reflexivity]|split; reflexivity].
Defined.

Lemma updateClusters_capacity_witness :
  rendererInv sampleRenderer /\ inGrid sampleRenderer 1 2 0
  /\ exists r',
       @updateClusters seriesMath sampleRenderer sampleCamera identityView
         crowdedScene false = Some r'
       /\ lightCount (_clusterTexture r') (clusterIndex1D sampleRenderer 1 2 0)
          = Some 500
       /\ storedLights (_clusterTexture r')
            (clusterIndex1D sampleRenderer 1 2 0) 500
          = Some <$> take 500 (seqZ 0 501).
Proof.
  split; [exact sampleRenderer_inv|].
  split; [unfold inGrid; simpl; lia|].
  assert (Hov : @overlapping seriesMath sampleRenderer sampleCamera
                  identityView 0 (lights crowdedScene) 1 2 0 = seqZ 0 501)
    by (vm_compute; reflexivity).
  destruct (@updateClusters_capacity seriesMath sampleRenderer sampleCamera
              identityView crowdedScene false 1 2 0 sampleRenderer_inv
              ltac:(unfold inGrid; simpl; lia)) as (r' & E & Hall).
  cbv zeta in Hall. rewrite Hov in Hall. destruct Hall as (Hc & _ & Hs).
  exists r'. split; [exact E|]. split; [exact Hc|exact Hs].
Defined.

Lemma updateClusters_writes_inBounds_witness :
  rendererInv sampleRenderer
  /\ exists r' ws,
       @updateClusters seriesMath sampleRenderer sampleCamera identityView
         sampleScene false = Some r'
       /\ writes (_clusterTexture r') = ws ++ []
       /\ Forall (inBounds sampleRenderer (_clusterTexture r')) ws.
Proof.
  split; [exact sampleRenderer_inv|].
  destruct (@updateClusters_writes_inBounds seriesMath sampleRenderer
              sampleCamera identityView sampleScene false sampleRenderer_inv)
    as (r' & ws & E & Hw & Hf & _).
  exists r', ws. split; [exact E|]. split; [exact Hw|exact Hf].
Defined.

Lemma clusterIndex1D_bijective_witness :
  inGrid sampleRenderer 1 2 3 /\ inGrid sampleRenderer 3 0 1
  /\ 0 <= clusterIndex1D sampleRenderer 1 2 3 < 4 * 4 * 4
  /\ clusterIndex1D sampleRenderer 1 2 3 = 57.
Proof.
  assert (H1 : inGrid sampleRenderer 1 2 3) by (unfold inGrid; simpl; lia).
  assert (H2 : inGrid sampleRenderer 3 0 1) by (unfold inGrid; simpl; lia).
  split; [exact H1|]. split; [exact H2|].
  destruct (clusterIndex1D_bijective sampleRenderer 1 2 3 3 0 1 H1 H2)
    as (Hr & He & _).
  split; [exact Hr|exact He].
Defined.


(** ** Arithmetic of JavaScript numbers *)


Lemma Qeq_bool_false (q : Q) : Qeq_bool q 0 = false <-> ~ q == 0.
Proof.
  split.
  - intros E Hq. apply Qeq_bool_iff in Hq. congruence.
  - intros Hn. destruct (Qeq_bool q 0) eqn:E; [|reflexivity].
    apply Qeq_bool_iff in E. contradiction.
Qed.

Lemma isFinNZ_true (h : num) :
  isFinNZ h = true <-> exists q, h = Fin q /\ ~ q == 0.
Proof.
  destruct h as [| | |q]; simpl;
    try (split; [discriminate|intros (q & [=] & _)]).
  rewrite negb_true_iff, Qeq_bool_false. split; [eauto|].
  intros (q' & [= ->] & Hq). exact Hq.
Qed.

(** [(n * h) / (2 * h)] is [n / 2] for a finite nonzero [h]. *)
Lemma half_ratio (n : Z) (h : num) :
  isFinNZ h = true ->
  exists q, (ofZ n * h / (Fin 2 * h))%num = Fin q /\ q == inject_Z n / 2.
Proof.
  intros (q & -> & Hq)%isFinNZ_true. simpl.
  assert (Hq2 : ~ 2 * q == 0) by (intros E; apply Hq; lra).
  apply Qeq_bool_false in Hq2. rewrite Hq2.
  eexists. split; [reflexivity|]. field. exact Hq.
Qed.

(** ... and [NaN] for any other [h]. *)
Lemma half_ratio_nan (n : Z) (h : num) :
  isFinNZ h = false -> (ofZ n * h / (Fin 2 * h))%num = NaN.
Proof.
  destruct h as [| | |q]; simpl.
  - reflexivity.
  - intros _. destruct (qsgn (inject_Z n)); reflexivity.
  - intros _. destruct (qsgn (inject_Z n)); reflexivity.
  - rewrite negb_false_iff. intros Hq. apply Qeq_bool_iff in Hq.
    assert (Hq2 : 2 * q == 0) by lra.
    apply Qeq_bool_iff in Hq2. rewrite Hq2.
    unfold qsgn. simpl.
    assert (Hn : Qnum q = 0).
    { unfold Qeq in Hq. simpl in Hq. lia. }
    rewrite Hn, Z.mul_0_r. reflexivity.
Qed.




Lemma add_NaN (a : num) : (a + NaN)%num = NaN.
Proof. destruct a; reflexivity. Qed.



Section Projection.
Context `{JSMath}.



End Projection.


(** ** Degenerate inputs *)





Section Degenerate.
Context `{JSMath}.

Lemma lightsLoop_total (r : BaseRenderer) (camera : Camera) (viewMatrix : mat4)
    (ls : list Light) :
  forall i tb, is_Some (lightsLoop r camera viewMatrix i ls tb).
Proof.
  induction ls as [|light ls IH]; intros i tb; simpl; [eauto|].
  rewrite (populate_foldl _ _ _ _ (lightRange_wf r camera viewMatrix light)).
  apply IH.
Qed.


End Degenerate.



(** ** Monotonicity in the radius *)








Section Monotone.
Context `{JSMath}.



End Monotone.



(** ** The shader against the CPU side *)

Lemma trunc_nonpos (q : Q) :
  (q <= 0)%Q -> Z.quot (Qnum q) (Zpos (Qden q)) = - Qfloor (- q).
Proof.
  intros Hq. destruct q as [n d]. unfold Qfloor, Qle in *. simpl in *.
  assert (Hn : n <= 0) by lia.
  replace n with (- - n) at 1 by lia.
  rewrite Z.quot_opp_l by lia. f_equal.
  apply Z.quot_div_nonneg; lia.
Qed.

(** X22. With the same slice depth [zStep > 0] on both sides, the depth index
    of the shader at a point in front of the camera ([z <= 0]) is the
    opposite of the depth index of the CPU side: they agree on the first
    slice only. *)
Lemma shader_depth_index_negated (z s : Q) :
  (z <= 0)%Q -> (0 < s)%Q ->
  exists k,
    Math_floor (Fin (-1) * Fin z / Fin s)%num = EInt k
    /\ glsl_int (Fin z / Fin s)%num = Some (- k)
    /\ 0 <= k.
Proof.
  intros Hz Hs. cbn [num_mul num_div].
  assert (Hs0 : Qeq_bool s 0 = false) by (apply Qeq_bool_false; lra).
  rewrite Hs0. cbn [Math_floor glsl_int].
  exists (Qfloor (-1 * z / s)). split; [reflexivity|].
  assert (Hq : (z / s <= 0)%Q).
  { unfold Qdiv. rewrite <- (Qmult_0_l (/ s)).
    apply Qmult_le_compat_r; [exact Hz|].
    apply Qlt_le_weak, Qinv_lt_0_compat, Hs. }
  split.
  - rewrite (trunc_nonpos _ Hq). do 2 f_equal.
    apply Qfloor_comp. field. lra.
  - assert (E : (0 <= -1 * z / s)%Q).
    { assert (E' : -1 * z / s == - (z / s)) by (field; lra).
      rewrite E'. lra. }
    apply Qfloor_resp_le in E. exact E.
Qed.

(** C3, at a failing input.  For the view-space point [(1/2, 1/2, -30)],
    inside the frustum of the sample camera, the CPU side registers a
    light located there in cluster 26 = 2 + 2*4 + 1*16, and
    [updateClusters] stores it there; the shader, with the same camera
    parameters, view matrix and grid, looks up cluster -6 = 2 + 2*4 - 1*16
    for a fragment at that position: its depth index is computed from
    [viewPos.z] without the negation of the CPU side. *)
Theorem shader_cluster_differs :
  @insideFrustum seriesMath sampleCamera deepPoint = true
  /\ @cpuClusterOfPoint seriesMath sampleRenderer sampleCamera deepPoint
     = Some 26
  /\ @fragClusterIndex seriesMath
       (uniformsOf sampleRenderer sampleCamera identityView) deepPoint
     = Some (-6)
  /\ @fragClusterIndex seriesMath
       (uniformsOf sampleRenderer sampleCamera identityView)
       (viewPosition (uniformsOf sampleRenderer sampleCamera identityView)
          deepPoint)
     = Some (-6)
  /\ exists r',
       @updateClusters seriesMath sampleRenderer sampleCamera identityView
         (mkScene [mkLight deepPoint (Fin 0)]) false = Some r'
       /\ lightCount (_clusterTexture r') 26 = Some 1
       /\ storedLights (_clusterTexture r') 26 1 = [Some 0].
Proof.
  split; [vm_compute; reflexivity|]. split; [vm_compute; reflexivity|].
  split; [vm_compute; reflexivity|]. split; [vm_compute; reflexivity|].
  assert (Hov : @overlapping seriesMath sampleRenderer sampleCamera
                  identityView 0 [mkLight deepPoint (Fin 0)] 2 2 1 = [0])
    by (vm_compute; reflexivity).
  destruct (@updateClusters_cluster seriesMath sampleRenderer sampleCamera
              identityView (mkScene [mkLight deepPoint (Fin 0)]) false 2 2 1
              sampleRenderer_inv ltac:(unfold inGrid; simpl; lia))
    as (r' & E & Hall).
  cbv zeta in Hall. simpl lights in Hall. rewrite Hov in Hall.
  destruct Hall as (Hc & _ & Hs).
  exists r'. split; [exact E|]. split; [exact Hc|exact Hs].
Qed.

(** ** The constructor does not validate *)

(** C8, as the code has it.  The constructor checks nothing itself: it
    raises exactly when the construction of the cluster texture, called
    with the product of the dimensions and 501, raises; otherwise it
    returns an object holding the dimensions as given, whatever their
    sign, their product as element count and 126 as element size.  With
    the cluster texture of the specification it always returns. *)
Theorem constructor_no_validation
    (newTextureBuffer : Z -> Z -> outcome TextureBuffer)
    (xSlices ySlices zSlices : Z) :
  (constructorWith newTextureBuffer xSlices ySlices zSlices = Raised
   <-> newTextureBuffer (xSlices * ySlices * zSlices)
         (MAX_LIGHTS_PER_CLUSTER + 1) = Raised)
  /\ (forall r,
        constructorWith newTextureBuffer xSlices ySlices zSlices = Returned r ->
        _xSlices r = xSlices /\ _ySlices r = ySlices /\ _zSlices r = zSlices
        /\ _elementCount r = xSlices * ySlices * zSlices
        /\ _elementSize r = EInt 126)
  /\ exists r, constructor xSlices ySlices zSlices = Returned r.
Proof.
  unfold constructor, constructorWith. split; [|split].
  - destruct (newTextureBuffer _ _); split; intros; congruence.
  - intros r. destruct (newTextureBuffer _ _); [|discriminate].
    intros [= <-]. simpl. split_and!; reflexivity.
  - simpl. eauto.
Qed.

Lemma constructor_no_validation_witness :
  constructorWith TextureBuffer_new 4 4 4 = Returned sampleRenderer
  /\ _xSlices sampleRenderer = 4 /\ _elementCount sampleRenderer = 4 * 4 * 4.
Proof.
  assert (E : constructorWith TextureBuffer_new 4 4 4 = Returned sampleRenderer)
    by reflexivity.
  split; [exact E|].
  destruct (proj1 (proj2 (constructor_no_validation TextureBuffer_new 4 4 4))
              sampleRenderer E) as (Hx & _ & _ & Hn & _).
  split; [exact Hx|exact Hn].
Defined.

(** C8, as it is stated, fails: a grid with a zero and a negative
    dimension is constructed without any failure, and the object holds
    the malformed dimensions. *)
Lemma malformed_grid_constructed :
  exists r, constructor 0 (-4) 4 = Returned r
    /\ constructor 0 (-4) 4 <> Raised
    /\ _xSlices r = 0 /\ _ySlices r = -4 /\ _elementCount r = 0
    /\ _buffer (_clusterTexture r) = [].
Proof.
  eexists. split; [reflexivity|]. split; [discriminate|].
  split_and!; reflexivity.
Qed.

(** * Further properties of [updateClusters] *)

(** ** The layout is kept *)

Lemma addLight_shape (c i : Z) (tb : TextureBuffer) :
  _pixelsPerElement (addLight c i tb) = _pixelsPerElement tb
  /\ length (_buffer (addLight c i tb)) = length (_buffer tb)
  /\ tb_elementCount (addLight c i tb) = tb_elementCount tb.
Proof.
  unfold addLight. destruct (bufGet tb _) as [v|]; [|auto].
  destruct (v <? _); [|auto]. cbv zeta.
  destruct (bufGet _ _); rewrite ?store_length; auto.
Qed.

Lemma foldl_shape {A : Type} (g : A -> TextureBuffer -> TextureBuffer)
    (xs : list A) :
  (forall x tb, _pixelsPerElement (g x tb) = _pixelsPerElement tb
                /\ length (_buffer (g x tb)) = length (_buffer tb)
                /\ tb_elementCount (g x tb) = tb_elementCount tb) ->
  forall tb,
    _pixelsPerElement (foldl (fun tb x => g x tb) tb xs) = _pixelsPerElement tb
    /\ length (_buffer (foldl (fun tb x => g x tb) tb xs))
       = length (_buffer tb)
    /\ tb_elementCount (foldl (fun tb x => g x tb) tb xs) = tb_elementCount tb.
Proof.
  intros Hg. induction xs as [|x xs IH]; intros tb; simpl; [auto|].
  destruct (IH (g x tb)) as (-> & -> & ->). apply Hg.
Qed.

Lemma resetCounts_shape (r : BaseRenderer) (tb : TextureBuffer) :
  _pixelsPerElement (resetCounts r tb) = _pixelsPerElement tb
  /\ length (_buffer (resetCounts r tb)) = length (_buffer tb)
  /\ tb_elementCount (resetCounts r tb) = tb_elementCount tb.
Proof.
  rewrite resetCounts_foldl.
  apply (foldl_shape (fun c tb => store tb c 0 0 0)).
  intros c tb'. rewrite store_length. auto.
Qed.

Section Shape.
Context `{JSMath}.

Lemma lightsLoop_shape (r : BaseRenderer) (camera : Camera)
    (viewMatrix : mat4) (ls : list Light) :
  forall (i : Z) (tb tb' : TextureBuffer),
  lightsLoop r camera viewMatrix i ls tb = Some tb' ->
  _pixelsPerElement tb' = _pixelsPerElement tb
  /\ length (_buffer tb') = length (_buffer tb)
  /\ tb_elementCount tb' = tb_elementCount tb.
Proof.
  induction ls as [|light ls IH]; intros i tb tb'; simpl.
  - intros [= <-]. auto.
  - rewrite (populate_foldl _ _ _ _ (lightRange_wf r camera viewMatrix light)).
    intros E. destruct (IH _ _ _ E) as (-> & -> & ->).
    apply (foldl_shape (fun c tb => addLight c i tb)).
    intros c tb1. apply addLight_shape.
Qed.

Lemma updateClusters_returns (r : BaseRenderer) (camera : Camera)
    (viewMatrix : mat4) (scene : Scene) (wireframe : bool) :
  exists r', updateClusters r camera viewMatrix scene wireframe = Some r'.
Proof.
  unfold updateClusters.
  destruct (lightsLoop_total r camera viewMatrix (lights scene) 0
              (resetCounts r (_clusterTexture r))) as [tb' ->]. eauto.
Qed.

Lemma updateClusters_shape (r r' : BaseRenderer) (camera : Camera)
    (viewMatrix : mat4) (scene : Scene) (wireframe : bool) :
  updateClusters r camera viewMatrix scene wireframe = Some r' ->
  _xSlices r' = _xSlices r /\ _ySlices r' = _ySlices r
  /\ _zSlices r' = _zSlices r
  /\ _pixelsPerElement (_clusterTexture r')
     = _pixelsPerElement (_clusterTexture r)
  /\ length (_buffer (_clusterTexture r'))
     = length (_buffer (_clusterTexture r)).
Proof.
  unfold updateClusters, update.
  destruct (lightsLoop _ _ _ _ _ _) as [tb'|] eqn:E; [|discriminate].
  intros [= <-]. simpl.
  destruct (lightsLoop_shape _ _ _ _ _ _ _ E) as (Hp & Hl & _).
  destruct (resetCounts_shape r (_clusterTexture r)) as (Hp' & Hl' & _).
  split_and!; try reflexivity; congruence.
Qed.

(** X1. Whatever the state of the renderer, [updateClusters] returns and
    changes nothing but the contents of the typed array: the grid
    dimensions, the element count and size, the layout of the texture and
    the length of its buffer are those of before the call. *)
Theorem updateClusters_keeps_configuration (r : BaseRenderer)
    (camera : Camera) (viewMatrix : mat4) (scene : Scene) (wireframe : bool) :
  exists r', updateClusters r camera viewMatrix scene wireframe = Some r'
    /\ _xSlices r' = _xSlices r /\ _ySlices r' = _ySlices r
    /\ _zSlices r' = _zSlices r
    /\ _elementCount r' = _elementCount r /\ _elementSize r' = _elementSize r
    /\ _pixelsPerElement (_clusterTexture r')
       = _pixelsPerElement (_clusterTexture r)
    /\ tb_elementCount (_clusterTexture r') = tb_elementCount (_clusterTexture r)
    /\ length (_buffer (_clusterTexture r'))
       = length (_buffer (_clusterTexture r)).
Proof.
  unfold updateClusters, update.
  destruct (lightsLoop_total r camera viewMatrix (lights scene) 0
              (resetCounts r (_clusterTexture r))) as [tb' E].
  rewrite E. eexists. split; [reflexivity|]. simpl.
  destruct (lightsLoop_shape _ _ _ _ _ _ _ E) as (Hp & Hl & He).
  destruct (resetCounts_shape r (_clusterTexture r)) as (Hp' & Hl' & He').
  split_and!; try reflexivity; congruence.
Qed.

End Shape.

(** ** The previous contents of the buffer do not matter *)

Lemma Agree_store (ws : list Write) (tb1 tb2 : TextureBuffer) (c p k v : Z) :
  Agree ws tb1 tb2 ->
  Agree (mkWrite c p k :: ws) (store tb1 c p k v) (store tb2 c p k v).
Proof.
  intros (Hp & Hl & Ha).
  split; [exact Hp|]. split; [rewrite !store_length; exact Hl|].
  intros w Hw. rewrite !bufGet_store.
  assert (Ea : forall w', address (store tb1 c p k v) w' = address tb1 w')
    by reflexivity.
  assert (Eb : forall w', address (store tb2 c p k v) w' = address tb2 w')
    by reflexivity.
  rewrite Ea, Eb.
  assert (E12 : forall w', address tb1 w' = address tb2 w')
    by (intros w'; unfold address, bufferIndex; rewrite Hp; reflexivity).
  rewrite <- !E12, <- Hl.
  case_decide as Hd; [reflexivity|].
  apply elem_of_cons in Hw as [-> | Hw].
  - rewrite !bufGet_None; [reflexivity|rewrite <- Hl|]; intros Hb;
      apply Hd; split; [reflexivity|exact Hb| reflexivity | exact Hb].
  - rewrite (E12 w) at 2. apply Ha, Hw.
Qed.

Lemma Sim_store (r : BaseRenderer) (t1 t2 : list Write)
    (tb1 tb2 : TextureBuffer) (c p k v : Z) :
  Sim r t1 t2 tb1 tb2 ->
  Sim r t1 t2 (store tb1 c p k v) (store tb2 c p k v).
Proof.
  intros (ws & H1 & H2 & HA & Hg).
  exists (mkWrite c p k :: ws). simpl. rewrite H1, H2.
  split; [reflexivity|]. split; [reflexivity|].
  split; [by apply Agree_store|].
  intros c' Hc'. right. apply Hg, Hc'.
Qed.

Lemma Sim_addLight (r : BaseRenderer) (t1 t2 : list Write)
    (tb1 tb2 : TextureBuffer) (c i : Z) :
  Sim r t1 t2 tb1 tb2 -> c ∈ gridCells r ->
  Sim r t1 t2 (addLight c i tb1) (addLight c i tb2).
Proof.
  intros HS Hc. pose proof HS as (ws & H1 & H2 & (Hp & Hl & Ha) & Hg).
  assert (Hcount : bufGet tb1 (bufferIndex tb1 c 0)
                   = bufGet tb2 (bufferIndex tb2 c 0)).
  { pose proof (Ha _ (Hg c Hc)) as E. unfold address in E. simpl in E.
    rewrite !Z.add_0_r in E. exact E. }
  unfold addLight. rewrite <- Hcount.
  destruct (bufGet tb1 _) as [count|]; [|exact HS].
  destruct (count <? _); [|exact HS]. cbv zeta.
  pose proof (Sim_store r t1 t2 tb1 tb2 c 0 0 (count + 1) HS) as HS1.
  assert (Hre : bufGet (store tb1 c 0 0 (count + 1)) (bufferIndex tb1 c 0)
                = bufGet (store tb2 c 0 0 (count + 1)) (bufferIndex tb2 c 0)).
  { destruct HS1 as (ws1 & E1 & _ & (_ & _ & Ha1) & _).
    simpl in E1. rewrite H1 in E1.
    assert (Hin : mkWrite c 0 0 ∈ ws1).
    { assert (ws1 = mkWrite c 0 0 :: ws) as ->
        by (apply (app_inv_tail t1); exact (eq_sym E1)).
      left. }
    pose proof (Ha1 _ Hin) as E. unfold address in E. simpl in E.
    rewrite !Z.add_0_r in E. exact E. }
  rewrite <- Hre.
  destruct (bufGet (store tb1 _ _ _ _) _) as [lightIdx|]; [|exact HS1].
  apply Sim_store, HS1.
Qed.

Lemma Sim_foldl_addLight (r : BaseRenderer) (t1 t2 : list Write) (i : Z)
    (cs : list Z) :
  (forall c, c ∈ cs -> c ∈ gridCells r) ->
  forall tb1 tb2, Sim r t1 t2 tb1 tb2 ->
  Sim r t1 t2 (foldl (fun tb c => addLight c i tb) tb1 cs)
              (foldl (fun tb c => addLight c i tb) tb2 cs).
Proof.
  induction cs as [|c cs IH]; intros Hcs tb1 tb2 HS; simpl; [exact HS|].
  apply IH; [intros c' Hc'; apply Hcs; by right|].
  apply Sim_addLight; [exact HS|apply Hcs; left].
Qed.

Lemma Sim_resetCounts (r : BaseRenderer) (tb1 tb2 : TextureBuffer) :
  _pixelsPerElement tb1 = _pixelsPerElement tb2 ->
  length (_buffer tb1) = length (_buffer tb2) ->
  Sim r (writes tb1) (writes tb2) (resetCounts r tb1) (resetCounts r tb2).
Proof.
  intros Hp Hl. rewrite !resetCounts_foldl.
  assert (G : forall cs tb1' tb2' ws,
    writes tb1' = ws ++ writes tb1 -> writes tb2' = ws ++ writes tb2 ->
    Agree ws tb1' tb2' ->
    exists ws', writes (foldl (fun tb c => store tb c 0 0 0) tb1' cs)
                = ws' ++ writes tb1
      /\ writes (foldl (fun tb c => store tb c 0 0 0) tb2' cs)
         = ws' ++ writes tb2
      /\ Agree ws' (foldl (fun tb c => store tb c 0 0 0) tb1' cs)
                   (foldl (fun tb c => store tb c 0 0 0) tb2' cs)
      /\ (forall w, w ∈ ws -> w ∈ ws')
      /\ forall c, c ∈ cs -> mkWrite c 0 0 ∈ ws').
  { induction cs as [|c cs IH]; intros tb1' tb2' ws E1 E2 HA; simpl.
    - exists ws. split_and!; auto. intros c Hc. by apply elem_of_nil in Hc.
    - assert (E1' : writes (store tb1' c 0 0 0)
                    = (mkWrite c 0 0 :: ws) ++ writes tb1)
        by (simpl; rewrite E1; reflexivity).
      assert (E2' : writes (store tb2' c 0 0 0)
                    = (mkWrite c 0 0 :: ws) ++ writes tb2)
        by (simpl; rewrite E2; reflexivity).
      pose proof (Agree_store ws tb1' tb2' c 0 0 0 HA) as HA'.
      destruct (IH _ _ _ E1' E2' HA') as (ws' & F1 & F2 & FA & Fsub & Fc).
      exists ws'. split_and!; auto.
      + intros w Hw. apply Fsub. by right.
      + intros c' [-> | Hc']%elem_of_cons; [apply Fsub; left|by apply Fc]. }
  destruct (G (gridCells r) tb1 tb2 [] eq_refl eq_refl)
    as (ws' & F1 & F2 & FA & _ & Fc).
  { split; [exact Hp|]. split; [exact Hl|].
    intros w Hw. by apply elem_of_nil in Hw. }
  exists ws'. split_and!; auto.
Qed.

Section Independence.
Context `{JSMath}.

Lemma Sim_lightsLoop (r : BaseRenderer) (camera : Camera) (viewMatrix : mat4)
    (t1 t2 : list Write) (ls : list Light) :
  forall (i : Z) (tb1 tb2 tb1' tb2' : TextureBuffer),
  Sim r t1 t2 tb1 tb2 ->
  lightsLoop r camera viewMatrix i ls tb1 = Some tb1' ->
  lightsLoop r camera viewMatrix i ls tb2 = Some tb2' ->
  Sim r t1 t2 tb1' tb2'.
Proof.
  induction ls as [|light ls IH]; intros i tb1 tb2 tb1' tb2' HS; simpl.
  - intros [= <-] [= <-]. exact HS.
  - pose proof (lightRange_wf r camera viewMatrix light) as Hwf.
    rewrite !(populate_foldl _ _ _ _ Hwf). apply IH.
    apply Sim_foldl_addLight; [|exact HS].
    intros c Hc. eapply rangeCells_grid; eassumption.
Qed.

Lemma updateClusters_Sim (r1 r2 r1' r2' : BaseRenderer) (camera : Camera)
    (viewMatrix : mat4) (scene : Scene) (wireframe : bool) :
  _xSlices r1 = _xSlices r2 -> _ySlices r1 = _ySlices r2 ->
  _zSlices r1 = _zSlices r2 ->
  _pixelsPerElement (_clusterTexture r1)
  = _pixelsPerElement (_clusterTexture r2) ->
  length (_buffer (_clusterTexture r1))
  = length (_buffer (_clusterTexture r2)) ->
  updateClusters r1 camera viewMatrix scene wireframe = Some r1' ->
  updateClusters r2 camera viewMatrix scene wireframe = Some r2' ->
  Sim r1 (writes (_clusterTexture r1)) (writes (_clusterTexture r2))
      (_clusterTexture r1') (_clusterTexture r2').
Proof.
  intros Hx Hy Hz Hp Hl. unfold updateClusters, update.
  destruct (lightsLoop r1 _ _ _ _ _) as [tb1'|] eqn:E1; [|discriminate].
  destruct (lightsLoop r2 _ _ _ _ _) as [tb2'|] eqn:E2; [|discriminate].
  intros [= <-] [= <-]. simpl.
  assert (Er : forall i ls tb,
            lightsLoop r2 camera viewMatrix i ls tb
            = lightsLoop r1 camera viewMatrix i ls tb).
  { intros i ls. revert i. induction ls as [|l ls IH]; intros i tb; simpl;
      [reflexivity|].
    assert (Erg : lightRange r2 camera viewMatrix l
                  = lightRange r1 camera viewMatrix l)
      by (unfold lightRange, rawRange; rewrite Hx, Hy, Hz; reflexivity).
    rewrite Erg.
    assert (Epop : forall rg tb0, populate r2 rg i tb0 = populate r1 rg i tb0)
      by (intros; unfold populate, clusterIndex1D; rewrite Hx, Hy; reflexivity).
    rewrite Epop. destruct (populate r1 _ _ _); [apply IH|reflexivity]. }
  rewrite Er in E2.
  assert (Ereset : forall tb, resetCounts r2 tb = resetCounts r1 tb)
    by (intros; unfold resetCounts, clusterIndex1D; rewrite Hx, Hy, Hz;
        reflexivity).
  rewrite Ereset in E2.
  eapply Sim_lightsLoop; [|exact E1|exact E2].
  apply Sim_resetCounts; assumption.
Qed.

(** X2. What [updateClusters] writes does not depend on what the buffer
    held before: started on two renderers with the same grid and layout,
    with the same frame input, the two calls make the same writes in the
    same order and leave the same value in every cell they wrote. *)
Theorem updateClusters_ignores_previous_contents (r1 r2 : BaseRenderer)
    (camera : Camera) (viewMatrix : mat4) (scene : Scene) (wireframe : bool) :
  _xSlices r1 = _xSlices r2 -> _ySlices r1 = _ySlices r2 ->
  _zSlices r1 = _zSlices r2 ->
  _pixelsPerElement (_clusterTexture r1)
  = _pixelsPerElement (_clusterTexture r2) ->
  length (_buffer (_clusterTexture r1))
  = length (_buffer (_clusterTexture r2)) ->
  exists r1' r2' ws,
    updateClusters r1 camera viewMatrix scene wireframe = Some r1'
    /\ updateClusters r2 camera viewMatrix scene wireframe = Some r2'
    /\ writes (_clusterTexture r1') = ws ++ writes (_clusterTexture r1)
    /\ writes (_clusterTexture r2') = ws ++ writes (_clusterTexture r2)
    /\ forall w, w ∈ ws ->
         bufGet (_clusterTexture r1') (address (_clusterTexture r1') w)
         = bufGet (_clusterTexture r2') (address (_clusterTexture r2') w).
Proof.
  intros Hx Hy Hz Hp Hl.
  destruct (updateClusters_returns r1 camera viewMatrix scene wireframe)
    as (r1' & E1).
  destruct (updateClusters_returns r2 camera viewMatrix scene wireframe)
    as (r2' & E2).
  destruct (updateClusters_Sim r1 r2 r1' r2' camera viewMatrix scene wireframe
              Hx Hy Hz Hp Hl E1 E2) as (ws & W1 & W2 & (_ & _ & Ha) & _).
  exists r1', r2', ws. split_and!; auto.
Qed.

End Independence.

Section Idempotence.
Context `{JSMath}.

(** X3. [updateClusters] is idempotent: called a second time with the
    same camera, view matrix and scene, it leaves the typed array exactly
    as the first call left it, whatever the array held at the start. *)
Theorem updateClusters_idempotent (r : BaseRenderer) (camera : Camera)
    (viewMatrix : mat4) (scene : Scene) (wireframe : bool) :
  exists r1 r2,
    updateClusters r camera viewMatrix scene wireframe = Some r1
    /\ updateClusters r1 camera viewMatrix scene wireframe = Some r2
    /\ _buffer (_clusterTexture r2) = _buffer (_clusterTexture r1).
Proof.
  destruct (updateClusters_returns r camera viewMatrix scene wireframe)
    as (r1 & E1).
  destruct (updateClusters_returns r1 camera viewMatrix scene wireframe)
    as (r2 & E2).
  exists r1, r2. split; [exact E1|]. split; [exact E2|].
  destruct (updateClusters_shape _ _ _ _ _ _ E1) as (Hx & Hy & Hz & Hp & Hl).
  destruct (updateClusters_Sim r r1 r1 r2 camera viewMatrix scene wireframe
              (eq_sym Hx) (eq_sym Hy) (eq_sym Hz) (eq_sym Hp) (eq_sym Hl)
              E1 E2) as (ws & W1 & W2 & (Hp2 & Hl2 & Ha) & _).
  destruct (updateClusters_Frame _ _ _ _ _ _ E2) as (_ & ws' & W2' & Hk).
  assert (ws' = ws) as ->
    by (apply (app_inv_tail (writes (_clusterTexture r1))); congruence).
  apply list_eq. intros j. rewrite <- !bufGet_nat.
  set (a := Z.of_nat j).
  destruct (decide (a ∈ address (_clusterTexture r1) <$> ws)) as [Hin|Hout].
  - apply list_elem_of_fmap in Hin as (w & -> & Hw).
    rewrite (Ha w Hw). f_equal. unfold address, bufferIndex.
    rewrite Hp2. reflexivity.
  - apply Hk. intros w Hw E. apply Hout. apply list_elem_of_fmap. eauto.
Qed.

End Idempotence.

Lemma dirtyRenderer_shape :
  _xSlices sampleRenderer = _xSlices dirtyRenderer
  /\ _ySlices sampleRenderer = _ySlices dirtyRenderer
  /\ _zSlices sampleRenderer = _zSlices dirtyRenderer
  /\ _pixelsPerElement (_clusterTexture sampleRenderer)
     = _pixelsPerElement (_clusterTexture dirtyRenderer)
  /\ length (_buffer (_clusterTexture sampleRenderer))
     = length (_buffer (_clusterTexture dirtyRenderer)).
Proof.
  do 4 (split; [reflexivity|]).
  change (length (replicate (Z.to_nat (4 * 4 * 4 * 126 * 4)) 0)
          = length (replicate (Z.to_nat (4 * 4 * 4 * 126 * 4)) 7)).
  rewrite !length_replicate. reflexivity.
Defined.

Lemma updateClusters_ignores_previous_contents_witness :
  _xSlices sampleRenderer = _xSlices dirtyRenderer
  /\ exists r1' r2' ws,
       @updateClusters seriesMath sampleRenderer sampleCamera identityView
         sampleScene false = Some r1'
       /\ @updateClusters seriesMath dirtyRenderer sampleCamera identityView
            sampleScene false = Some r2'
       /\ writes (_clusterTexture r1') = ws ++ []
       /\ writes (_clusterTexture r2') = ws ++ [].
Proof.
  split; [reflexivity|].
  destruct dirtyRenderer_shape as (Hx & Hy & Hz & Hp & Hl).
  destruct (@updateClusters_ignores_previous_contents seriesMath
              sampleRenderer dirtyRenderer sampleCamera identityView
              sampleScene false Hx Hy Hz Hp Hl)
    as (r1' & r2' & ws & E1 & E2 & W1 & W2 & _).
  exists r1', r2', ws. split_and!; assumption.
Defined.

(** ** Lights appended to the scene *)

Section Appending.
Context `{JSMath}.

Lemma overlapping_app (r : BaseRenderer) (camera : Camera) (viewMatrix : mat4)
    (ls more : list Light) (x y z : Z) :
  forall i,
  overlapping r camera viewMatrix i (ls ++ more) x y z
  = overlapping r camera viewMatrix i ls x y z
    ++ overlapping r camera viewMatrix (i + Z.of_nat (length ls)) more x y z.
Proof.
  induction ls as [|l ls IH]; intros i; simpl.
  - rewrite Z.add_0_r. reflexivity.
  - rewrite IH.
    replace (i + 1 + Z.of_nat (length ls))
      with (i + Z.pos (Pos.of_succ_nat (length ls))) by lia.
    destruct (inRange _ x y z); reflexivity.
Qed.

(** X4. Appending lights to the scene never evicts an earlier light: in
    every cluster of the grid the count does not decrease and the indices
    stored for the shorter scene are a prefix of those stored for the
    longer one. *)
Theorem appended_lights_keep_earlier (r : BaseRenderer) (camera : Camera)
    (viewMatrix : mat4) (ls more : list Light) (wireframe : bool)
    (x y z : Z) :
  rendererInv r -> inGrid r x y z ->
  exists r1 r2 n1 n2,
    updateClusters r camera viewMatrix (mkScene ls) wireframe = Some r1
    /\ updateClusters r camera viewMatrix (mkScene (ls ++ more)) wireframe
       = Some r2
    /\ lightCount (_clusterTexture r1) (clusterIndex1D r x y z) = Some n1
    /\ lightCount (_clusterTexture r2) (clusterIndex1D r x y z) = Some n2
    /\ n1 <= n2
    /\ storedLights (_clusterTexture r1) (clusterIndex1D r x y z) n1
       `prefix_of`
       storedLights (_clusterTexture r2) (clusterIndex1D r x y z) n2.
Proof.
  intros Hinv Hg.
  destruct (updateClusters_cluster r camera viewMatrix (mkScene ls) wireframe
              x y z Hinv Hg) as (r1 & E1 & C1 & _ & S1).
  destruct (updateClusters_cluster r camera viewMatrix (mkScene (ls ++ more))
              wireframe x y z Hinv Hg) as (r2 & E2 & C2 & _ & S2).
  simpl lights in *. rewrite overlapping_app in C2, S2.
  set (ov := overlapping r camera viewMatrix 0 ls x y z) in *.
  set (ov' := overlapping r camera viewMatrix _ more x y z) in *.
  eexists r1, r2, _, _. split; [exact E1|]. split; [exact E2|].
  split; [exact C1|]. split; [exact C2|]. split.
  - rewrite length_app. lia.
  - rewrite S1, S2, take_app, fmap_app. by eexists.
Qed.

End Appending.

Lemma appended_lights_keep_earlier_witness :
  rendererInv sampleRenderer /\ inGrid sampleRenderer 1 2 0
  /\ exists r1 r2 n1 n2,
       @updateClusters seriesMath sampleRenderer sampleCamera identityView
         (mkScene [pointLight 0 0 (-10) 5]) false = Some r1
       /\ @updateClusters seriesMath sampleRenderer sampleCamera identityView
            (mkScene ([pointLight 0 0 (-10) 5] ++ [outsideLight])) false
          = Some r2
       /\ lightCount (_clusterTexture r1) (clusterIndex1D sampleRenderer 1 2 0)
          = Some n1
       /\ lightCount (_clusterTexture r2) (clusterIndex1D sampleRenderer 1 2 0)
          = Some n2
       /\ n1 <= n2.
Proof.
  assert (Hg : inGrid sampleRenderer 1 2 0) by (unfold inGrid; simpl; lia).
  split; [exact sampleRenderer_inv|]. split; [exact Hg|].
  destruct (@appended_lights_keep_earlier seriesMath sampleRenderer
              sampleCamera identityView [pointLight 0 0 (-10) 5]
              [outsideLight] false 1 2 0 sampleRenderer_inv Hg)
    as (r1 & r2 & n1 & n2 & E1 & E2 & C1 & C2 & Hn & _).
  exists r1, r2, n1, n2. split_and!; assumption.
Defined.

(** ** Lights with a [NaN] *)

Lemma NaN_add (a : num) : (NaN + a)%num = NaN.
Proof. reflexivity. Qed.

Lemma mul_NaN (a : num) : (a * NaN)%num = NaN.
Proof. destruct a; reflexivity. Qed.

Lemma NaN_div (a : num) : (NaN / a)%num = NaN.
Proof. reflexivity. Qed.

Lemma sub_NaN (a : num) : (a - NaN)%num = NaN.
Proof. destruct a; reflexivity. Qed.

Lemma transformMat4_NaN (a : vec3) (m : mat4) :
  v0 a = NaN \/ v1 a = NaN \/ v2 a = NaN ->
  transformMat4 a m = mkVec3 NaN NaN NaN.
Proof.
  intros Hn. unfold transformMat4. cbv zeta.
  assert (Hsum : forall p q s t : num,
            (p * v0 a + q * v1 a + s * v2 a + t)%num = NaN).
  { intros p q s t. destruct Hn as [-> | [-> | ->]];
      rewrite mul_NaN, ?add_NaN, ?NaN_add; reflexivity. }
  rewrite !Hsum. reflexivity.
Qed.

Section NaNLights.
Context `{JSMath}.

(** X5. A light whose radius or one of whose position coordinates is
    [NaN] is registered in no cluster: all its bounds are [NaN] and the
    population loop leaves the texture as it is. *)
Theorem NaN_light_skipped (r : BaseRenderer) (camera : Camera)
    (viewMatrix : mat4) (light : Light) (i : Z) (tb : TextureBuffer) :
  radius light = NaN \/ v0 (position light) = NaN
  \/ v1 (position light) = NaN \/ v2 (position light) = NaN ->
  lightRange r camera viewMatrix light
  = mkRange ENaN ENaN ENaN ENaN ENaN ENaN
  /\ populate r (lightRange r camera viewMatrix light) i tb = Some tb.
Proof.
  intros Hn.
  assert (Hbb : viewBB viewMatrix light
                = (mkVec3 NaN NaN NaN, mkVec3 NaN NaN NaN)).
  { unfold viewBB, fromValues. cbv zeta.
    rewrite !transformMat4_NaN; [reflexivity|..]; cbn [v0 v1 v2];
      destruct Hn as [-> | [-> | [-> | ->]]];
      rewrite ?sub_NaN, ?add_NaN; auto. }
  assert (Hrg : lightRange r camera viewMatrix light
                = mkRange ENaN ENaN ENaN ENaN ENaN ENaN).
  { unfold lightRange, rawRange. rewrite Hbb. cbn [v0 v1 v2 xMin xMax yMin
      yMax zMin zMax]. rewrite mul_NaN. reflexivity. }
  split; [exact Hrg|].
  rewrite Hrg. reflexivity.
Qed.

End NaNLights.

Lemma NaN_light_skipped_witness :
  radius (mkLight (mkVec3 (Fin 0) (Fin 0) (Fin (-10))) NaN) = NaN
  /\ @lightRange seriesMath sampleRenderer sampleCamera identityView
       (mkLight (mkVec3 (Fin 0) (Fin 0) (Fin (-10))) NaN)
     = mkRange ENaN ENaN ENaN ENaN ENaN ENaN.
Proof.
  split; [reflexivity|].
  exact (proj1 (@NaN_light_skipped seriesMath sampleRenderer sampleCamera
                  identityView
                  (mkLight (mkVec3 (Fin 0) (Fin 0) (Fin (-10))) NaN) 0
                  (_clusterTexture sampleRenderer) (or_introl eq_refl))).
Defined.

(** ** The clamp *)

(** X6. [clampClusterIndex(val, min, max)] with integer bounds
    [min <= max]: [NaN] is returned as [NaN]; any other value, infinite
    ones included, gives an integer between [min] and [max]; a value
    already in the interval is returned unchanged; clamping twice is
    clamping once; and the clamp is monotone. *)
Theorem clampClusterIndex_interval (val : eint) (lo hi : Z) :
  lo <= hi ->
  clampClusterIndex ENaN (EInt lo) (EInt hi) = ENaN
  /\ (val <> ENaN ->
      exists v, clampClusterIndex val (EInt lo) (EInt hi) = EInt v
                /\ lo <= v <= hi)
  /\ (forall v, lo <= v <= hi ->
        clampClusterIndex (EInt v) (EInt lo) (EInt hi) = EInt v)
  /\ clampClusterIndex (clampClusterIndex val (EInt lo) (EInt hi))
       (EInt lo) (EInt hi)
     = clampClusterIndex val (EInt lo) (EInt hi)
  /\ (forall v1 v2 c1 c2, v1 <= v2 ->
        clampClusterIndex (EInt v1) (EInt lo) (EInt hi) = EInt c1 ->
        clampClusterIndex (EInt v2) (EInt lo) (EInt hi) = EInt c2 ->
        c1 <= c2).
Proof.
  intros Hlh. unfold clampClusterIndex. split; [reflexivity|]. split; [|split; [|split]].
  - intros Hv. destruct val as [| | |v]; [done|..]; simpl;
      eexists; (split; [reflexivity|]); lia.
  - intros v Hv. simpl. f_equal. lia.
  - destruct val as [| | |v]; simpl; f_equal; lia.
  - intros v1 v2 c1 c2 Hv. simpl. intros [= <-] [= <-]. lia.
Qed.

Lemma clampClusterIndex_interval_witness :
  0 <= 4
  /\ exists v, clampClusterIndex EPInf (EInt 0) (EInt 4) = EInt v
               /\ 0 <= v <= 4.
Proof.
  assert (H04 : 0 <= 4) by lia.
  split; [exact H04|].
  apply (proj1 (proj2 (clampClusterIndex_interval EPInf 0 4 H04))).
  discriminate.
Defined.

(** * The fragment shader *)

(** ** [ExtractFloat] and the layout of the cluster texture *)

Lemma pixelOf_nonneg (k : Z) :
  0 <= k ->
  Shader.pixelOf k = k / 4 /\ Shader.pixelComponentOf k = Z.rem k 4
  /\ Shader.pixelComponentOf k = k mod 4.
Proof.
  intros Hk. unfold Shader.pixelComponentOf, Shader.pixelOf.
  rewrite Z.quot_div_nonneg by lia.
  destruct (div_rem_4 k Hk) as (E & _ & _).
  rewrite Z.rem_mod_nonneg in * by lia. lia.
Qed.

(** X7. The CPU side and the shader agree on where a light index lives:
    when a cluster holds [v < 500] lights, [updateClusters] stores the
    next light at the group [pixelNum] and component [pixelComponent] that
    [ExtractFloat] computes as [pixel] and [pixelComponent] for the
    component [v + 1]; the count is at group 0, component 0 on both
    sides. *)
Theorem addLight_writes_where_ExtractFloat_reads (tb : TextureBuffer)
    (c i v : Z) :
  bufGet tb (bufferIndex tb c 0) = Some v ->
  0 <= v -> v < MAX_LIGHTS_PER_CLUSTER ->
  writes (addLight c i tb)
  = mkWrite c (Shader.pixelOf (v + 1)) (Shader.pixelComponentOf (v + 1))
      :: mkWrite c (Shader.pixelOf 0) (Shader.pixelComponentOf 0)
      :: writes tb.
Proof.
  intros Hv H0 Hmax. rewrite (addLight_room c i v tb Hv Hmax).
  destruct (pixelOf_nonneg (v + 1)) as (-> & -> & _); [lia|].
  reflexivity.
Qed.

Lemma addLight_writes_where_ExtractFloat_reads_witness :
  bufGet (_clusterTexture sampleRenderer)
         (bufferIndex (_clusterTexture sampleRenderer) 10 0) = Some 0
  /\ 0 <= 0 /\ 0 < MAX_LIGHTS_PER_CLUSTER
  /\ writes (addLight 10 7 (_clusterTexture sampleRenderer))
     = [mkWrite 10 0 1; mkWrite 10 0 0].
Proof.
  assert (Hv : bufGet (_clusterTexture sampleRenderer)
                 (bufferIndex (_clusterTexture sampleRenderer) 10 0) = Some 0)
    by (vm_compute; reflexivity).
  assert (H0 : 0 <= 0) by lia.
  assert (Hm : 0 < MAX_LIGHTS_PER_CLUSTER) by reflexivity.
  split; [exact Hv|]. split; [exact H0|]. split; [exact Hm|].
  exact (addLight_writes_where_ExtractFloat_reads _ 10 7 0 Hv H0 Hm).
Defined.

Lemma ExtractFloat_value (texture : Shader.sampler2D)
    (textureWidth textureHeight index component : Z) :
  (0 <= component ->
   Shader.ExtractFloat texture textureWidth textureHeight index component
   = Some (texelComponent
             (texture (Shader.mkVec2
                         (Shader.texelCoord textureWidth index)
                         (Shader.texelCoord textureHeight (component / 4))))
             (component mod 4)))
  /\ (component < 0 -> component mod 4 <> 0 ->
      Shader.ExtractFloat texture textureWidth textureHeight index component
      = None).
Proof.
  unfold Shader.ExtractFloat, Shader.texture2D, texelComponent. cbv zeta.
  split.
  - intros Hc. destruct (pixelOf_nonneg component Hc) as (-> & _ & ->).
    pose proof (Z.mod_pos_bound component 4 ltac:(lia)) as Hb.
    destruct (component mod 4 =? 0) eqn:E0; [reflexivity|].
    destruct (component mod 4 =? 1) eqn:E1; [reflexivity|].
    destruct (component mod 4 =? 2) eqn:E2; [reflexivity|].
    destruct (component mod 4 =? 3) eqn:E3; [reflexivity|].
    apply Z.eqb_neq in E0, E1, E2, E3. lia.
  - intros Hneg Hm.
    assert (Hr : -4 < Shader.pixelComponentOf component < 0).
    { unfold Shader.pixelComponentOf, Shader.pixelOf.
      pose proof (Z.quot_rem component 4 ltac:(lia)) as Hq.
      pose proof (Z.rem_bound_pos_neg component 4 ltac:(lia) ltac:(lia)) as Hb.
      assert (Z.rem component 4 <> 0).
      { intros E0. apply Hm. apply Z.rem_divide in E0; [|lia].
        apply Z.mod_divide; [lia|exact E0]. }
      lia. }
    destruct (_ =? 0) eqn:E0; [apply Z.eqb_eq in E0; lia|].
    destruct (_ =? 1) eqn:E1; [apply Z.eqb_eq in E1; lia|].
    destruct (_ =? 2) eqn:E2; [apply Z.eqb_eq in E2; lia|].
    destruct (_ =? 3) eqn:E3; [apply Z.eqb_eq in E3; lia|].
    reflexivity.
Qed.

(** X8. [ExtractFloat] returns a value for every component [>= 0]: the
    component [component mod 4] of the texel sampled at
    [((index + 1) / (width + 1), (component / 4 + 1) / (height + 1))].
    For a negative component that is not a multiple of 4 it reaches the
    end of the function without returning. *)
Theorem ExtractFloat_component (texture : Shader.sampler2D)
    (textureWidth textureHeight index component : Z) :
  (0 <= component ->
   Shader.ExtractFloat texture textureWidth textureHeight index component
   = Some (texelComponent
             (texture (Shader.mkVec2
                         (Shader.texelCoord textureWidth index)
                         (Shader.texelCoord textureHeight (component / 4))))
             (component mod 4)))
  /\ (component < 0 -> component mod 4 <> 0 ->
      Shader.ExtractFloat texture textureWidth textureHeight index component
      = None).
Proof. apply ExtractFloat_value. Qed.

Lemma ExtractFloat_component_witness :
  0 <= 6
  /\ Shader.ExtractFloat (flatTexture 5) 64 126 10 6 = Some (Fin 5)
  /\ -1 < 0 /\ (-1) mod 4 <> 0
  /\ Shader.ExtractFloat (flatTexture 5) 64 126 10 (-1) = None.
Proof.
  assert (H6 : 0 <= 6) by lia.
  assert (Hn : -1 < 0) by lia.
  assert (Hm : (-1) mod 4 <> 0) by discriminate.
  split; [exact H6|].
  split; [exact (proj1 (ExtractFloat_component (flatTexture 5) 64 126 10 6)
                   H6)|].
  split; [exact Hn|]. split; [exact Hm|].
  exact (proj2 (ExtractFloat_component (flatTexture 5) 64 126 10 (-1))
           Hn Hm).
Defined.

(** ** The guard band *)

Lemma Qdiv_lt_cross (a b c d : Q) :
  (0 < b)%Q -> (0 < d)%Q -> (a * d < c * b)%Q -> (a / b < c / d)%Q.
Proof.
  intros Hb Hd Hlt. apply Qlt_shift_div_r; [exact Hb|].
  assert (E : (c / d * b == c * b / d)%Q) by (field; lra).
  rewrite E. apply Qlt_shift_div_l; assumption.
Qed.

Lemma texelCoord_inside (n i : Z) :
  0 <= i < n ->
  exists q, Shader.texelCoord n i = Fin q /\ insideTexel n i q.
Proof.
  intros Hi. unfold Shader.texelCoord, ofZ. cbn [num_div].
  assert (Hn1 : (0 < inject_Z (n + 1))%Q)
    by (rewrite <- (Zlt_Qlt 0); lia).
  assert (Hn : (0 < inject_Z n)%Q) by (rewrite <- (Zlt_Qlt 0); lia).
  assert (Hq : Qeq_bool (inject_Z (n + 1)) 0 = false)
    by (apply Qeq_bool_false; lra).
  rewrite Hq. eexists. split; [reflexivity|].
  assert (Ha : (0 <= inject_Z i)%Q) by (rewrite <- (Zle_Qle 0); lia).
  assert (Hin : (inject_Z i < inject_Z n)%Q) by (rewrite <- Zlt_Qlt; lia).
  assert (E1 : (inject_Z (i + 1) == inject_Z i + 1)%Q)
    by (rewrite inject_Z_plus; reflexivity).
  assert (E2 : (inject_Z (n + 1) == inject_Z n + 1)%Q)
    by (rewrite inject_Z_plus; reflexivity).
  split; apply Qdiv_lt_cross; try assumption; rewrite ?E1, ?E2; nra.
Qed.

(** X9. [ExtractFloat] samples strictly inside the texel it is asked
    for: for [0 <= index < width], [component >= 0] and
    [component / 4 < height], its result is the same for any two textures
    that hold the same texels inside the cell of column [index] and row
    [component / 4]. *)
Theorem ExtractFloat_reads_inside_texel (t1 t2 : Shader.sampler2D)
    (textureWidth textureHeight index component : Z) :
  0 <= index < textureWidth ->
  0 <= component -> component / 4 < textureHeight ->
  sameTexel t1 t2 textureWidth textureHeight index (component / 4) ->
  Shader.ExtractFloat t1 textureWidth textureHeight index component
  = Shader.ExtractFloat t2 textureWidth textureHeight index component.
Proof.
  intros Hi Hc Hh Hsame.
  rewrite !(proj1 (ExtractFloat_value _ _ _ _ _)) by exact Hc.
  destruct (texelCoord_inside textureWidth index Hi) as (u & -> & Hu).
  destruct (texelCoord_inside textureHeight (component / 4))
    as (v & -> & Hv).
  { split; [apply Z.div_pos; lia|exact Hh]. }
  rewrite (Hsame u v Hu Hv). reflexivity.
Qed.

Lemma bandedTexture_first_row (x y : Q) (u : num) (v : Q) :
  (v < 1 # 2)%Q ->
  bandedTexture x y (Shader.mkVec2 u (Fin v)) = flatTexture x (Shader.mkVec2 u (Fin v)).
Proof.
  intros Hv. unfold bandedTexture. cbn [Shader.vy].
  assert (E : Qle_bool v (1 # 2) = true) by (apply Qle_bool_iff; lra).
  rewrite E. reflexivity.
Qed.

Lemma ExtractFloat_reads_inside_texel_witness :
  0 <= 10 < 64 /\ 0 <= 3 /\ 3 / 4 < 2
  /\ sameTexel (bandedTexture 5 9) (flatTexture 5) 64 2 10 (3 / 4)
  /\ Shader.ExtractFloat (bandedTexture 5 9) 64 2 10 3
     = Shader.ExtractFloat (flatTexture 5) 64 2 10 3.
Proof.
  assert (Hi : 0 <= 10 < 64) by lia.
  assert (Hc : 0 <= 3) by lia.
  assert (Hh : 3 / 4 < 2) by reflexivity.
  assert (Hs : sameTexel (bandedTexture 5 9) (flatTexture 5) 64 2 10 (3 / 4)).
  { intros u v _ (_ & Hv). apply bandedTexture_first_row.
    change (v < 1 # 2)%Q in Hv. exact Hv. }
  split; [exact Hi|]. split; [exact Hc|]. split; [exact Hh|].
  split; [exact Hs|].
  exact (ExtractFloat_reads_inside_texel _ _ 64 2 10 3 Hi Hc Hh Hs).
Defined.

(** ** [UnpackLight] *)

(** X10. [UnpackLight] always returns a light.  Its position and colour
    are the first three components of the texels sampled at height 0.3
    and 0.6 of the column of the light; when the texel does not depend on
    where in the first row the sample falls, the radius is the fourth
    component of the position texel. *)
Theorem UnpackLight_layout (params : Shader.Params)
    (u_lightbuffer : Shader.sampler2D) (index : Z) :
  firstRowConstant u_lightbuffer ->
  let u := Shader.texelCoord (Shader.numLights params) index in
  let t1 := u_lightbuffer (Shader.mkVec2 u (Fin (3 # 10))) in
  let t2 := u_lightbuffer (Shader.mkVec2 u (Fin (6 # 10))) in
  Shader.UnpackLight params u_lightbuffer index
  = Some (Shader.mkLight (Shader.xyz t1) (Shader.e3 t1) (Shader.xyz t2)).
Proof.
  intros Hrow u t1 t2. unfold Shader.UnpackLight. cbv zeta.
  rewrite (proj1 (ExtractFloat_value u_lightbuffer
                    (Shader.numLights params) 2 index 3)) by lia.
  change (3 / 4) with 0. change (3 mod 4) with 3.
  unfold texelComponent. cbn [Z.eqb]. unfold Shader.texture2D.
  fold u. subst t1 t2. do 3 f_equal.
  change (Shader.texelCoord 2 0) with (Fin (inject_Z 1 / inject_Z 3)).
  apply Hrow; unfold Qle, Qlt; simpl; lia.
Qed.

Lemma UnpackLight_layout_witness :
  firstRowConstant (bandedTexture 2 1)
  /\ Shader.UnpackLight (Shader.mkParams 4 3 500) (bandedTexture 2 1) 1
     = Some (Shader.mkLight (mkVec3 (Fin 2) (Fin 2) (Fin 2)) (Fin 2)
               (mkVec3 (Fin 1) (Fin 1) (Fin 1))).
Proof.
  assert (Hrow : firstRowConstant (bandedTexture 2 1)).
  { intros u v v' _ Hv _ Hv'.
    rewrite !bandedTexture_first_row by assumption. reflexivity. }
  split; [exact Hrow|].
  exact (UnpackLight_layout (Shader.mkParams 4 3 500) (bandedTexture 2 1) 1
           Hrow).
Defined.

(** ** [cubicGaussian] *)

Lemma num_ltb_Fin (x y : Q) :
  num_ltb (Fin x) (Fin y) = true <-> (x < y)%Q.
Proof.
  unfold num_ltb. destruct (Qlt_le_dec x y); split; intros; try lra;
    try reflexivity; try discriminate.
Qed.

Lemma num_ltb_Fin_false (x y : Q) :
  num_ltb (Fin x) (Fin y) = false <-> (y <= x)%Q.
Proof.
  unfold num_ltb. destruct (Qlt_le_dec x y); split; intros; try lra;
    try reflexivity; try discriminate.
Qed.

Lemma num_ltb_1_2 (h : num) :
  num_ltb h (Fin 2) = false -> num_ltb h (Fin 1) = false.
Proof.
  destruct h as [| | |q]; try (intros; reflexivity || discriminate).
  rewrite !num_ltb_Fin_false. intros; lra.
Qed.

Lemma cube_mono (a b : Q) :
  (0 <= a)%Q -> (a <= b)%Q -> (a * a * a <= b * b * b)%Q.
Proof.
  intros Ha Hab.
  assert (H1 : (0 <= a * a)%Q) by nra.
  assert (H2 : (a * a <= b * b)%Q) by nra.
  assert (H3 : (0 <= (b * b - a * a) * a)%Q)
    by (apply Qmult_le_0_compat; lra).
  assert (H4 : (0 <= b * b * (b - a))%Q)
    by (apply Qmult_le_0_compat; nra).
  nra.
Qed.

Section Gaussian.
Context {GM : Shader.GLSLMath}.

Lemma cubicGaussian_zero (h : num) :
  num_ltb h (Fin 2) = false -> Shader.cubicGaussian h = Fin 0.
Proof.
  intros H2. unfold Shader.cubicGaussian.
  rewrite (num_ltb_1_2 h H2), H2. reflexivity.
Qed.

(** X11. [cubicGaussian] is exactly 0 at every [h] that is not below 2:
    from 2 upwards, at plus infinity, and at [NaN]; whatever [pow]
    computes. *)
Theorem cubicGaussian_zero_beyond_two (h : num) :
  num_ltb h (Fin 2) = false -> Shader.cubicGaussian h = Fin 0.
Proof. exact (cubicGaussian_zero h). Qed.

Lemma cubicGaussian_value (Hpow : PowCubes) (h : Q) :
  (0 <= h)%Q ->
  exists g, Shader.cubicGaussian (Fin h) = Fin g
    /\ ((h < 1)%Q -> g == 1 - (3 # 2) * h * h + (3 # 4) * h * h * h)
    /\ ((1 <= h)%Q -> (h < 2)%Q -> g == (1 # 4) * ((2 - h) * (2 - h) * (2 - h)))
    /\ ((2 <= h)%Q -> g == 0).
Proof.
  intros H0. unfold Shader.cubicGaussian.
  destruct (num_ltb (Fin h) (Fin 1)) eqn:E1.
  - apply num_ltb_Fin in E1. cbn [num_sub num_add num_opp].
    destruct (Hpow (2 + - h)%Q) as (p2 & -> & Hp2); [lra|].
    destruct (Hpow (1 + - h)%Q) as (p1 & -> & Hp1); [lra|].
    cbn [num_mul num_sub num_add num_opp].
    eexists. split; [reflexivity|].
    split; [|split]; intros; lra.
  - apply num_ltb_Fin_false in E1.
    destruct (num_ltb (Fin h) (Fin 2)) eqn:E2.
    + apply num_ltb_Fin in E2. cbn [num_sub num_add num_opp].
      destruct (Hpow (2 + - h)%Q) as (p2 & -> & Hp2); [lra|].
      cbn [num_mul]. eexists. split; [reflexivity|].
      split; [|split]; intros; lra.
    + apply num_ltb_Fin_false in E2. exists 0%Q.
      split; [reflexivity|]. split; [|split]; intros; try lra.
Qed.

(** X12. When [pow(x, 3.0)] is the cube of [x], [cubicGaussian] at a
    finite [h >= 0] is a number between 0 and 1: it is 1 at 0,
    [1 - 3/2 h^2 + 3/4 h^3] below 1, [1/4 (2 - h)^3] from 1 to 2 (the two
    pieces meet at 1/4), positive below 2 and 0 from 2 on. *)
Theorem cubicGaussian_profile (Hpow : PowCubes) (h : Q) :
  (0 <= h)%Q ->
  exists g, Shader.cubicGaussian (Fin h) = Fin g
    /\ (0 <= g)%Q /\ (g <= 1)%Q
    /\ (h == 0 -> g == 1)
    /\ (h == 1 -> g == 1 # 4)
    /\ ((h < 1)%Q -> g == 1 - (3 # 2) * h * h + (3 # 4) * h * h * h)
    /\ ((1 <= h)%Q -> (h < 2)%Q -> g == (1 # 4) * ((2 - h) * (2 - h) * (2 - h)))
    /\ ((h < 2)%Q -> (0 < g)%Q)
    /\ ((2 <= h)%Q -> g == 0).
Proof.
  intros H0. destruct (cubicGaussian_value Hpow h H0) as (g & E & Ha & Hb & Hc).
  exists g. split; [exact E|].
  assert (Hcases : (h < 1 \/ (1 <= h /\ h < 2) \/ 2 <= h)%Q) by lra.
  assert (Hpos : (h < 2)%Q -> (0 < g)%Q).
  { intros H2. destruct (Qlt_le_dec h 1) as [H1|H1].
    - rewrite (Ha H1).
      assert (0 <= h * h)%Q by nra. assert (h * h <= h)%Q by nra.
      assert (0 <= h * h * h)%Q by nra. nra.
    - rewrite (Hb H1 H2).
      assert (0 < (2 - h) * (2 - h))%Q by nra.
      assert (0 < (2 - h) * (2 - h) * (2 - h))%Q by nra. nra. }
  assert (Hle : (g <= 1)%Q).
  { destruct Hcases as [H1|[[H1 H2]|H2]].
    - rewrite (Ha H1).
      assert (0 <= h * h)%Q by nra.
      assert (h * h * h <= h * h)%Q by nra. nra.
    - rewrite (Hb H1 H2).
      assert (0 <= (2 - h) * (2 - h))%Q by nra.
      assert ((2 - h) * (2 - h) <= 1)%Q by nra.
      assert ((2 - h) * (2 - h) * (2 - h) <= 1)%Q by nra. nra.
    - rewrite (Hc H2). lra. }
  assert (Hge : (0 <= g)%Q).
  { destruct (Qlt_le_dec h 2) as [H2|H2]; [apply Qlt_le_weak, Hpos, H2|].
    rewrite (Hc H2). lra. }
  split; [exact Hge|]. split; [exact Hle|].
  split; [intros Hh; rewrite Ha by lra; rewrite Hh; reflexivity|].
  split; [intros Hh; rewrite Hb by lra; rewrite Hh; reflexivity|].
  split; [exact Ha|]. split; [exact Hb|]. split; [exact Hpos|exact Hc].
Qed.

(** X13. When [pow(x, 3.0)] is the cube of [x], [cubicGaussian] does not
    increase on the finite [h >= 0]: a fragment farther from a light
    never gets more of it. *)
Theorem cubicGaussian_monotone (Hpow : PowCubes) (h h' : Q) :
  (0 <= h)%Q -> (h <= h')%Q ->
  exists g g', Shader.cubicGaussian (Fin h) = Fin g
    /\ Shader.cubicGaussian (Fin h') = Fin g' /\ (g' <= g)%Q.
Proof.
  intros H0 Hle.
  destruct (cubicGaussian_value Hpow h H0) as (g & E & Ha & Hb & Hc).
  destruct (cubicGaussian_value Hpow h') as (g' & E' & Ha' & Hb' & Hc');
    [lra|].
  exists g, g'. split; [exact E|]. split; [exact E'|].
  (* the value at 1, between the two pieces *)
  assert (Hlow : forall x y, (0 <= x)%Q -> (x <= 1)%Q ->
            y == 1 - (3 # 2) * x * x + (3 # 4) * x * x * x -> (1 # 4 <= y)%Q).
  { intros x y Hx0 Hx1 ->.
    assert (0 <= (1 - x) * (1 - x))%Q by nra.
    assert (0 <= (1 - x) * ((1 - x) * (1 - x)))%Q by nra.
    assert (0 <= (1 - x) * x)%Q by nra.
    assert (0 <= (1 - x) * x * x)%Q by nra. nra. }
  assert (Hhigh : forall x y, (1 <= x)%Q -> (x <= 2)%Q ->
            y == (1 # 4) * ((2 - x) * (2 - x) * (2 - x)) ->
            (0 <= y)%Q /\ (y <= 1 # 4)%Q).
  { intros x y Hx1 Hx2 ->.
    assert (0 <= (2 - x) * (2 - x))%Q by nra.
    assert ((2 - x) * (2 - x) <= 1)%Q by nra.
    assert (0 <= (2 - x) * (2 - x) * (2 - x))%Q by nra.
    assert ((2 - x) * (2 - x) * (2 - x) <= 1)%Q by nra. nra. }
  destruct (Qlt_le_dec h' 1) as [H1'|H1'].
  - (* both below 1 *)
    rewrite (Ha ltac:(lra)), (Ha' H1').
    assert (0 <= (h' - h) * h)%Q by nra.
    assert (0 <= (h' - h) * h')%Q by nra.
    assert (0 <= (h' - h) * (h * (1 - h)))%Q by nra.
    assert (0 <= (h' - h) * (h' * (1 - h')))%Q by nra.
    assert (0 <= (h' - h) * (h' * (1 - h)))%Q by nra.
    nra.
  - destruct (Qlt_le_dec h' 2) as [H2'|H2'].
    + destruct (Qlt_le_dec h 1) as [H1|H1].
      * pose proof (Hlow h g H0 ltac:(lra) (Ha H1)).
        pose proof (Hhigh h' g' H1' ltac:(lra) (Hb' H1' H2')). lra.
      * rewrite (Hb H1 ltac:(lra)), (Hb' H1' H2').
        pose proof (cube_mono (2 - h') (2 - h) ltac:(lra) ltac:(lra)).
        lra.
    + rewrite (Hc' H2').
      destruct (Qlt_le_dec h 1) as [H1|H1].
      * pose proof (Hlow h g H0 ltac:(lra) (Ha H1)). lra.
      * destruct (Qlt_le_dec h 2) as [H2|H2].
        -- pose proof (Hhigh h g H1 ltac:(lra) (Hb H1 H2)). lra.
        -- rewrite (Hc H2). lra.
Qed.

End Gaussian.

Lemma cubicGaussian_zero_beyond_two_witness :
  num_ltb NaN (Fin 2) = false
  /\ @Shader.cubicGaussian powMath NaN = Fin 0.
Proof.
  assert (Hn : num_ltb NaN (Fin 2) = false) by reflexivity.
  split; [exact Hn|].
  exact (@cubicGaussian_zero_beyond_two powMath NaN Hn).
Defined.

Lemma powMath_cubes : @PowCubes powMath.
Proof.
  intros q _. eexists. split; [reflexivity|].
  rewrite Qred_correct. change (Qtrunc 3) with 3. simpl. ring.
Qed.

Lemma cubicGaussian_profile_witness :
  (0 <= 1 # 2)%Q
  /\ exists g, @Shader.cubicGaussian powMath (Fin (1 # 2)) = Fin g
       /\ (0 <= g)%Q /\ (g <= 1)%Q.
Proof.
  assert (H0 : (0 <= 1 # 2)%Q) by (unfold Qle; simpl; lia).
  split; [exact H0|].
  destruct (@cubicGaussian_profile powMath powMath_cubes (1 # 2) H0)
    as (g & E & Hge & Hle & _).
  exists g. split; [exact E|]. split; [exact Hge|exact Hle].
Defined.

Lemma cubicGaussian_monotone_witness :
  (0 <= 1 # 2)%Q /\ (1 # 2 <= 3 # 2)%Q
  /\ exists g g', @Shader.cubicGaussian powMath (Fin (1 # 2)) = Fin g
       /\ @Shader.cubicGaussian powMath (Fin (3 # 2)) = Fin g'
       /\ (g' <= g)%Q.
Proof.
  assert (H0 : (0 <= 1 # 2)%Q) by (unfold Qle; simpl; lia).
  assert (H1 : (1 # 2 <= 3 # 2)%Q) by (unfold Qle; simpl; lia).
  split; [exact H0|]. split; [exact H1|].
  exact (@cubicGaussian_monotone powMath powMath_cubes (1 # 2) (3 # 2) H0 H1).
Defined.

(** ** The light loop of [main] *)

Lemma lightLoop_seqZ (k : nat) :
  forall (a count : Z) (body : Z -> vec3 -> option vec3) (fragColor : vec3),
    Shader.lightLoop (seqZ a (Z.of_nat k)) count body fragColor
    = forEach (seqZ a (Z.min (Z.of_nat k) (count - a))) body fragColor.
Proof.
  induction k as [|k IH]; intros a count body fragColor.
  - rewrite (seqZ_nil a (Z.of_nat 0)) by lia.
    rewrite (seqZ_nil a (Z.min _ _)) by lia. reflexivity.
  - rewrite (seqZ_cons a (Z.of_nat (S k))) by lia.
    cbn [Shader.lightLoop].
    destruct (count <=? a) eqn:E.
    + apply Z.leb_le in E. rewrite (seqZ_nil a (Z.min _ _)) by lia.
      reflexivity.
    + apply Z.leb_gt in E.
      rewrite (seqZ_cons a (Z.min _ _)) by lia. cbn [forEach].
      destruct (body a fragColor) as [fragColor'|]; [|reflexivity].
      replace (Z.pred (Z.of_nat (S k))) with (Z.of_nat k) by lia.
      rewrite IH. do 2 f_equal. lia.
Qed.

Lemma lightLoop_min (m count : Z) (body : Z -> vec3 -> option vec3)
    (fragColor : vec3) :
  Shader.lightLoop (seqZ 0 (m - 0)) count body fragColor
  = forEach (seqZ 0 (Z.min m count)) body fragColor.
Proof.
  destruct (Z_le_gt_dec m 0) as [Hm|Hm].
  - rewrite (seqZ_nil 0 (m - 0)) by lia.
    rewrite (seqZ_nil 0 (Z.min _ _)) by lia. reflexivity.
  - replace (m - 0) with (Z.of_nat (Z.to_nat m)) by lia.
    rewrite lightLoop_seqZ. do 2 f_equal. lia.
Qed.

(** X14. The light loop of [main], [for (i = 0; i < maxClusterLights; ++i)]
    with its [break] at [i >= clusterLightsCount], runs its body for
    [i = 0 .. min(maxClusterLights, clusterLightsCount) - 1] in that
    order, and not at all when the count or the bound is zero or
    negative. *)
Theorem lightLoop_runs_min_steps (maxClusterLights clusterLightsCount : Z)
    (body : Z -> vec3 -> option vec3) (fragColor : vec3) :
  Shader.lightLoop (seqZ 0 (maxClusterLights - 0)) clusterLightsCount body
    fragColor
  = forEach (seqZ 0 (Z.min maxClusterLights clusterLightsCount)) body
      fragColor.
Proof. apply lightLoop_min. Qed.

Section Main.
Context {JM : JSMath} {GM : Shader.GLSLMath}.

(** X15. A fragment whose cluster has a count of zero or less, or a
    shader generated with [maxClusterLights <= 0], gets the ambient
    colour: 0.025 times the albedo, with alpha 1; no light is
    unpacked. *)
Theorem main_without_lights (inp : Shader.Inputs)
    (width height clusterIndex clusterLightsCount : Z) :
  Shader.clusterOf inp
    (Shader.xyz (Shader.u_gbuffers inp 0%nat (Shader.v_uv inp)))
  = Some (width, height, clusterIndex, clusterLightsCount) ->
  clusterLightsCount <= 0
  \/ Shader.maxClusterLights (Shader.params inp) <= 0 ->
  Shader.main inp = Some (ambientColor inp).
Proof.
  intros Hc Hn. unfold Shader.main, Shader.texture2D. cbv zeta.
  rewrite Hc, lightLoop_min, (seqZ_nil 0 (Z.min _ _)) by lia.
  reflexivity.
Qed.

Lemma lightLoop_unknown_shader (inp : Shader.Inputs)
    (width height clusterIndex count : Z)
    (pos norm diffuseColor specularColor : vec3) (specExponent : num)
    (steps : list Z) :
  Shader.u_surfaceShader inp <> 0 -> Shader.u_surfaceShader inp <> 1 ->
  forall fragColor out,
    Shader.lightLoop steps count
      (Shader.lightStep inp width height clusterIndex pos norm diffuseColor
         specularColor specExponent) fragColor = Some out ->
    out = fragColor.
Proof.
  intros H0 H1. apply Z.eqb_neq in H0, H1.
  induction steps as [|i rest IH]; intros fragColor out; cbn [Shader.lightLoop].
  - intros [= <-]. reflexivity.
  - destruct (count <=? i); [intros [= <-]; reflexivity|].
    unfold Shader.lightStep at 1.
    destruct (Shader.ExtractFloat _ _ _ _ _) as [f|]; [|discriminate].
    destruct (glsl_int f) as [lightIdx|]; [|discriminate].
    destruct (Shader.UnpackLight _ _ _) as [light|]; [|discriminate].
    unfold Shader.shadeLight. rewrite H0, H1. apply IH.
Qed.

(** X16. With [u_surfaceShader] set to a value other than 0 and 1, no
    light contributes: if [main] produces a colour, it is the ambient
    colour, whatever the cluster holds. *)
Theorem main_unknown_surface_shader (inp : Shader.Inputs)
    (out : Shader.vec4) :
  Shader.u_surfaceShader inp <> 0 -> Shader.u_surfaceShader inp <> 1 ->
  Shader.main inp = Some out ->
  out = ambientColor inp.
Proof.
  intros H0 H1. unfold Shader.main, Shader.texture2D. cbv zeta.
  destruct (Shader.clusterOf _ _) as [[[[w h] c] n]|]; [|discriminate].
  destruct (Shader.lightLoop _ _ _ _) as [fragColor|] eqn:E; [|discriminate].
  apply (lightLoop_unknown_shader inp w h c n _ _ _ _ _ _ H0 H1) in E.
  subst fragColor. intros [= <-]. reflexivity.
Qed.

End Main.

Lemma main_without_lights_witness :
  @Shader.clusterOf seriesMath (sampleInputs 0 0)
    (Shader.xyz (Shader.u_gbuffers (sampleInputs 0 0) 0%nat
                   (Shader.v_uv (sampleInputs 0 0))))
  = Some (64, 126, 5, 0)
  /\ (0 <= 0 \/ Shader.maxClusterLights (Shader.params (sampleInputs 0 0)) <= 0)
  /\ @Shader.main seriesMath powMath (sampleInputs 0 0)
     = Some (ambientColor (sampleInputs 0 0)).
Proof.
  assert (Hc : @Shader.clusterOf seriesMath (sampleInputs 0 0)
                 (Shader.xyz (Shader.u_gbuffers (sampleInputs 0 0) 0%nat
                                (Shader.v_uv (sampleInputs 0 0))))
               = Some (64, 126, 5, 0)) by (vm_compute; reflexivity).
  assert (Hn : 0 <= 0
               \/ Shader.maxClusterLights (Shader.params (sampleInputs 0 0)) <= 0)
    by (left; lia).
  split; [exact Hc|]. split; [exact Hn|].
  exact (@main_without_lights seriesMath powMath (sampleInputs 0 0)
           64 126 5 0 Hc Hn).
Defined.

Lemma main_unknown_surface_shader_witness :
  Shader.u_surfaceShader (sampleInputs 1 2) <> 0
  /\ Shader.u_surfaceShader (sampleInputs 1 2) <> 1
  /\ exists out, @Shader.main seriesMath powMath (sampleInputs 1 2) = Some out
       /\ out = ambientColor (sampleInputs 1 2).
Proof.
  assert (H0 : Shader.u_surfaceShader (sampleInputs 1 2) <> 0)
    by discriminate.
  assert (H1 : Shader.u_surfaceShader (sampleInputs 1 2) <> 1)
    by discriminate.
  split; [exact H0|]. split; [exact H1|].
  assert (Hm : @Shader.main seriesMath powMath (sampleInputs 1 2)
               = Some (Shader.mkVec4 (Fin (-25 # 1000)) (Fin (-25 # 1000))
                         (Fin (-25 # 1000)) (Fin 1)))
    by (vm_compute; reflexivity).
  eexists. split; [exact Hm|].
  exact (@main_unknown_surface_shader seriesMath powMath (sampleInputs 1 2)
           _ H0 H1 Hm).
Defined.

(** ** A light beyond its radius *)

Lemma num_equiv_add_zero (a : num) (x : Q) :
  x == 0 -> num_equiv (a + Fin x)%num a.
Proof.
  intros Hx. destruct a as [| | |q]; try reflexivity.
  simpl. rewrite Hx. ring.
Qed.

Lemma glsl_max_Fin (x y : Q) : exists m, Shader.glsl_max (Fin x) (Fin y) = Fin m.
Proof.
  unfold Shader.glsl_max. destruct (num_ltb (Fin x) (Fin y)); eauto.
Qed.

Section Shading.
Context {JM : JSMath} {GM : Shader.GLSLMath}.

(** X17. With the Lambertian surface shader, a light at a distance [d]
    from the fragment that is at least its radius [r > 0] leaves
    [fragColor] as it is: the falloff is exactly 0 there.  Positions,
    normal, albedo and light colour are finite. *)
Theorem light_beyond_radius_adds_nothing (inp : Shader.Inputs)
    (pos norm diffuseColor specularColor : vec3) (specExponent : num)
    (light : Shader.Light) (fragColor : vec3) (d r : Q) :
  Shader.u_surfaceShader inp = 0 ->
  finite3 (Shader.position light) -> finite3 pos -> finite3 norm ->
  finite3 diffuseColor -> finite3 (Shader.color light) ->
  Shader.distance (Shader.position light) pos = Fin d ->
  Shader.radius light = Fin r ->
  (0 < r)%Q -> (r <= d)%Q ->
  vec3_equiv
    (Shader.shadeLight inp pos norm diffuseColor specularColor specExponent
       light fragColor)
    fragColor.
Proof.
  intros Hs Hlp Hpos Hnorm Hdiff Hcol Hd Hr Hr0 Hrd.
  unfold Shader.shadeLight. rewrite Hs. cbn [Z.eqb]. cbv zeta.
  rewrite Hd, Hr.
  assert (Hd0 : Qeq_bool d 0 = false) by (apply Qeq_bool_false; lra).
  assert (Hr0' : Qeq_bool r 0 = false) by (apply Qeq_bool_false; lra).
  assert (Hi : Shader.cubicGaussian (Fin 2 * Fin d / Fin r)%num = Fin 0).
  { apply cubicGaussian_zero. cbn [num_mul num_div]. rewrite Hr0'.
    apply num_ltb_Fin_false. apply Qle_shift_div_l; [exact Hr0|]. lra. }
  rewrite Hi.
  destruct light as [[lx ly lz] rad [cx cy cz]].
  destruct pos as [px py pz]. destruct norm as [nx ny nz].
  destruct diffuseColor as [dx dy dz].
  destruct Hlp as ((? & Elx) & (? & Ely) & (? & Elz)).
  destruct Hpos as ((? & Epx) & (? & Epy) & (? & Epz)).
  destruct Hnorm as ((? & Enx) & (? & Eny) & (? & Enz)).
  destruct Hdiff as ((? & Edx) & (? & Edy) & (? & Edz)).
  destruct Hcol as ((? & Ecx) & (? & Ecy) & (? & Ecz)).
  cbn [Shader.position Shader.color v0 v1 v2] in *. subst.
  unfold Shader.vdiv, Shader.vsub, Shader.dot.
  cbn [v0 v1 v2 num_sub num_add num_opp num_div num_mul]. rewrite Hd0.
  cbn [num_sub num_add num_opp num_div num_mul].
  match goal with
  | |- context [Shader.glsl_max (Fin ?a) (Fin ?b)] =>
      destruct (glsl_max_Fin a b) as (m & ->)
  end.
  unfold Shader.vadd, Shader.vmul, Shader.vscale, Shader.splat, vec3_equiv.
  cbn [v0 v1 v2 num_mul].
  split; [|split]; apply num_equiv_add_zero; ring.
Qed.

End Shading.

Lemma light_beyond_radius_adds_nothing_witness :
  let light := Shader.mkLight (mkVec3 (Fin 3) (Fin 0) (Fin 0)) (Fin 2)
                 (mkVec3 (Fin 1) (Fin 1) (Fin 1)) in
  let pos := mkVec3 (Fin 0) (Fin 0) (Fin 0) in
  let norm := mkVec3 (Fin 1) (Fin 0) (Fin 0) in
  let albedo := mkVec3 (Fin (1 # 2)) (Fin (1 # 2)) (Fin (1 # 2)) in
  @Shader.distance powMath (Shader.position light) pos = Fin 3
  /\ (0 < 2)%Q /\ (2 <= 3)%Q
  /\ vec3_equiv
       (@Shader.shadeLight powMath (sampleInputs 1 0) pos norm albedo
          (Shader.splat (Fin 1)) (Fin 8) light albedo)
       albedo.
Proof.
  intros light pos norm albedo.
  assert (Hd : @Shader.distance powMath (Shader.position light) pos = Fin 3)
    by (vm_compute; reflexivity).
  assert (Hr0 : (0 < 2)%Q) by reflexivity.
  assert (Hrd : (2 <= 3)%Q) by (unfold Qle; simpl; lia).
  split; [exact Hd|]. split; [exact Hr0|]. split; [exact Hrd|].
  apply (@light_beyond_radius_adds_nothing powMath (sampleInputs 1 0)
           pos norm albedo (Shader.splat (Fin 1)) (Fin 8) light albedo 3 2).
  - reflexivity.
  - repeat split; eexists; reflexivity.
  - repeat split; eexists; reflexivity.
  - repeat split; eexists; reflexivity.
  - repeat split; eexists; reflexivity.
  - repeat split; eexists; reflexivity.
  - exact Hd.
  - reflexivity.
  - exact Hr0.
  - exact Hrd.
Defined.

(** ** The cluster index of a fragment *)




Section ClusterLookup.
Context {JM : JSMath}.


(** X19. A fragment for which a half extent is zero or not finite (on the
    plane of the camera, or with a zero field of view or aspect) has no
    defined cluster: [0 / 0] is [NaN] and [int(NaN)] is undefined. *)
Theorem fragClusterIndex_undefined (u : Uniforms) (viewPos : vec3)
    (nx ny : Z) (sz : num) :
  u_slices u = mkVec3 (ofZ nx) (ofZ ny) sz ->
  let halfYLen :=
    (v2 viewPos * Math_tan (Fin (1 # 2) * u_fov u * (glsl_PI / Fin 180)))%num in
  isFinNZ halfYLen = false \/ isFinNZ (halfYLen * u_aspect u)%num = false ->
  fragClusterIndex u viewPos = None.
Proof.
  intros Hsl halfYLen Hh. unfold fragClusterIndex. cbv zeta.
  fold halfYLen. rewrite Hsl. cbn [v0 v1 v2].
  destruct (isFinNZ (halfYLen * u_aspect u)%num) eqn:Ex.
  - destruct Hh as [Ey|]; [|discriminate].
    destruct (half_ratio nx _ Ex) as (qx & -> & _).
    rewrite (half_ratio_nan ny _ Ey), add_NaN.
    destruct (glsl_int (v0 viewPos + Fin qx)%num); reflexivity.
  - rewrite (half_ratio_nan nx _ Ex), add_NaN. reflexivity.
Qed.

End ClusterLookup.


Lemma fragClusterIndex_undefined_witness :
  @fragClusterIndex seriesMath
    (uniformsOf sampleRenderer sampleCamera identityView)
    (mkVec3 (Fin 1) (Fin 1) (Fin 0)) = None.
Proof.
  apply (@fragClusterIndex_undefined seriesMath
           (uniformsOf sampleRenderer sampleCamera identityView)
           (mkVec3 (Fin 1) (Fin 1) (Fin 0)) 4 4 (ofZ 4)).
  - reflexivity.
  - left. vm_compute. reflexivity.
Defined.

Lemma shader_depth_index_negated_witness :
  (-30 <= 0)%Q /\ (0 < 99 # 4)%Q
  /\ exists k, Math_floor (Fin (-1) * Fin (-30) / Fin (99 # 4))%num = EInt k
       /\ glsl_int (Fin (-30) / Fin (99 # 4))%num = Some (- k) /\ 0 <= k.
Proof.
  assert (Hz : (-30 <= 0)%Q) by (unfold Qle; simpl; lia).
  assert (Hs : (0 < 99 # 4)%Q) by reflexivity.
  split; [exact Hz|]. split; [exact Hs|].
  exact (shader_depth_index_negated (-30) (99 # 4) Hz Hs).
Defined.

(** * The order of the stored lights *)

Lemma StronglySorted_take {A : Type} (R : A -> A -> Prop) (n : nat)
    (l : list A) :
  StronglySorted R l -> StronglySorted R (take n l).
Proof.
  intros Hl. revert n. induction Hl as [|a l Hl IH Ha]; intros [|n]; simpl;
    try constructor.
  - apply IH.
  - apply Forall_take, Ha.
Qed.

Section Order.
Context {JM : JSMath}.

Lemma overlapping_sorted (r : BaseRenderer) (camera : Camera)
    (viewMatrix : mat4) (x y z : Z) (ls : list Light) :
  forall i,
    Forall (fun j => i <= j < i + Z.of_nat (length ls))
      (overlapping r camera viewMatrix i ls x y z)
    /\ StronglySorted Z.lt (overlapping r camera viewMatrix i ls x y z).
Proof.
  induction ls as [|light ls IH]; intros i; cbn [overlapping length].
  - split; constructor.
  - destruct (IH (i + 1)) as (Hb & Hs). cbv zeta.
    assert (Hb' : Forall (fun j => i < j /\ i <= j < i + Z.of_nat (S (length ls)))
                    (overlapping r camera viewMatrix (i + 1) ls x y z)).
    { eapply Forall_impl; [exact Hb|]. cbv beta. intros j Hj. lia. }
    destruct (inRange _ x y z).
    + split.
      * constructor; [lia|]. eapply Forall_impl; [exact Hb'|].
        cbv beta. tauto.
      * constructor; [exact Hs|]. eapply Forall_impl; [exact Hb'|].
        cbv beta. tauto.
    + split; [|exact Hs]. eapply Forall_impl; [exact Hb'|].
      cbv beta. tauto.
Qed.

(** X20. After [updateClusters] the light indices stored in a cluster of
    the grid are indices of lights of the scene, in strictly increasing
    order: no light is stored twice in a cluster, and every index the
    shader reads there is below the number of lights. *)
Theorem updateClusters_lights_sorted (r : BaseRenderer) (camera : Camera)
    (viewMatrix : mat4) (scene : Scene) (wireframe : bool) (x y z : Z) :
  rendererInv r -> inGrid r x y z ->
  exists r' n l,
    updateClusters r camera viewMatrix scene wireframe = Some r'
    /\ lightCount (_clusterTexture r') (clusterIndex1D r x y z) = Some n
    /\ storedLights (_clusterTexture r') (clusterIndex1D r x y z) n
       = Some <$> l
    /\ Z.of_nat (length l) = n
    /\ StronglySorted Z.lt l
    /\ Forall (fun i => 0 <= i < Z.of_nat (length (lights scene))) l.
Proof.
  intros Hr Hg.
  destruct (updateClusters_cluster r camera viewMatrix scene wireframe x y z
              Hr Hg) as (r' & E & Hn & _ & Hl).
  cbv zeta in Hn, Hl.
  destruct (overlapping_sorted r camera viewMatrix x y z (lights scene) 0)
    as (Hb & Hs).
  eexists r', _, _. split; [exact E|]. split; [exact Hn|].
  split; [exact Hl|]. split; [|split].
  - rewrite length_take. unfold MAX_LIGHTS_PER_CLUSTER. lia.
  - apply StronglySorted_take, Hs.
  - apply Forall_take. eapply Forall_impl; [exact Hb|]. cbv beta. lia.
Qed.

End Order.

Lemma updateClusters_lights_sorted_witness :
  rendererInv sampleRenderer /\ inGrid sampleRenderer 1 2 0
  /\ exists r' n l,
       @updateClusters seriesMath sampleRenderer sampleCamera identityView
         sampleScene false = Some r'
       /\ lightCount (_clusterTexture r') (clusterIndex1D sampleRenderer 1 2 0)
          = Some n
       /\ Z.of_nat (length l) = n
       /\ StronglySorted Z.lt l.
Proof.
  assert (Hg : inGrid sampleRenderer 1 2 0) by (unfold inGrid; simpl; lia).
  split; [exact sampleRenderer_inv|]. split; [exact Hg|].
  destruct (@updateClusters_lights_sorted seriesMath sampleRenderer
              sampleCamera identityView sampleScene false 1 2 0
              sampleRenderer_inv Hg)
    as (r' & n & l & E & Hn & _ & Hlen & Hs & _).
  exists r', n, l. split; [exact E|]. split; [exact Hn|].
  split; [exact Hlen|exact Hs].
Defined.

(** * The height of a cluster record *)

(** X21. The record height [_elementSize] set by the constructor is
    exactly what the shader needs: for every slot [i] below the capacity,
    the row [pixel] that [ExtractFloat] computes for the component [i + 1]
    is below [_elementSize], and the last slot lies in the last row. *)
Theorem elementSize_covers_shader_rows
    (newTextureBuffer : Z -> Z -> outcome TextureBuffer)
    (xSlices ySlices zSlices : Z) (r : BaseRenderer) :
  constructorWith newTextureBuffer xSlices ySlices zSlices = Returned r ->
  exists rows,
    _elementSize r = EInt rows
    /\ (forall i, 0 <= i < MAX_LIGHTS_PER_CLUSTER ->
          0 <= Shader.pixelOf (i + 1) < rows)
    /\ Shader.pixelOf (MAX_LIGHTS_PER_CLUSTER - 1 + 1) = rows - 1.
Proof.
  unfold constructorWith. destruct (newTextureBuffer _ _); [|discriminate].
  intros [= <-]. exists 126. split; [reflexivity|]. split; [|reflexivity].
  intros i Hi. unfold MAX_LIGHTS_PER_CLUSTER in Hi.
  destruct (pixelOf_nonneg (i + 1)) as (-> & _); [lia|].
  split; [apply Z.div_pos; lia|]. apply Z.div_lt_upper_bound; lia.
Qed.

Lemma elementSize_covers_shader_rows_witness :
  constructorWith TextureBuffer_new 4 4 4 = Returned sampleRenderer
  /\ exists rows,
       _elementSize sampleRenderer = EInt rows
       /\ Shader.pixelOf (MAX_LIGHTS_PER_CLUSTER - 1 + 1) = rows - 1.
Proof.
  assert (E : constructorWith TextureBuffer_new 4 4 4 = Returned sampleRenderer)
    by reflexivity.
  split; [exact E|].
  destruct (elementSize_covers_shader_rows TextureBuffer_new 4 4 4
              sampleRenderer E) as (rows & Hr & _ & Hlast).
  exists rows. split; [exact Hr|exact Hlast].
Defined.
